(** * The [usePipeline] hook of the React starter template

    A shallow embedding of [hooks/usePipeline.ts]: the four state cells
    ([ready], [loading], [error], [output]), the [pipelineRef] ref, the
    init effect with its per-run [cancelled] variable, and the [run] and
    [reset] callbacks.  The two asynchronous functions are split at their
    single [await]: the part before it runs when the function is called,
    the part after it runs when the awaited promise settles.  The external
    library ([pipeline(...)] and the callable it resolves to) is the
    environment: it settles promises through the events [LoadSettles] and
    [InvokeSettles].  A state setter is taken to write its cell at once,
    and a render whose dependency array changed to run the previous
    cleanup and the new effect in one step.

    Two callers of the library follow the hook: the [App] component, which
    drives the hook from a textarea and a button, and the script of the
    vanilla starter, [main.js], which keeps its classifier in a module
    variable and writes to the page directly. *)

From stdpp Require Import base option list strings.

Open Scope string_scope.
Open Scope list_scope.

(** ** Data *)

Inductive PipelineTask :=
| SentimentAnalysis
| TextGeneration
| ImageClassification
| AutomaticSpeechRecognition.

Inductive Device := Auto | Webgpu | Wasm.

(** [UsePipelineOptions]: both fields are optional in the source. *)
Record UsePipelineOptions := mkOptions {
  model : option string;
  device : option Device
}.

(** The default value of the [options] parameter, [{}]. *)
Definition no_options : UsePipelineOptions := mkOptions None None.

(** The callable that [pipeline(...)] resolves to is opaque: only its
    identity matters here. *)
Definition Pipeline := nat.

(** Inputs and results are of type [any] / [T] in the source and are only
    passed through. *)
Definition Payload := string.

(** What a rejected promise carries: JavaScript can throw any value, and
    both [catch] blocks test [err instanceof Error]. *)
Inductive Thrown :=
| ErrorObj (message : string)
| NonError (value : string).

(** How an awaited promise settles. *)
Inductive Settled (A : Type) :=
| Resolved (a : A)
| Rejected (e : Thrown).
Arguments Resolved {A} a.
Arguments Rejected {A} e.

(** State of a promise returned by one of the hook's [async] functions. *)
Inductive PromiseState :=
| Pending
| Fulfilled
| RejectedWith (e : Thrown).

(** One run of the init effect: the arguments of its [pipeline(...)] call,
    its own [cancelled] variable, and the promise of [initPipeline()]. *)
Record Closure := mkClosure {
  cl_task : PipelineTask;
  cl_model : option string;
  cl_device : Device;
  cancelled : bool;
  cl_promise : PromiseState
}.

(** One call [pipelineRef.current(input)] made by [run], and the promise
    that this call of [run] returned. *)
Record Call := mkCall {
  call_pipe : Pipeline;
  call_input : Payload;
  call_promise : PromiseState
}.

(** The dependency array [[task, options.model, options.device]]. *)
Definition Deps : Type := PipelineTask * option string * option Device.

Definition deps_of (task : PipelineTask) (options : UsePipelineOptions) : Deps :=
  (task, model options, device options).

Inductive Mount :=
| NotMounted
| Mounted (deps : Deps)
| Unmounted.

Record Hook := mkHook {
  ready : bool;
  loading : bool;
  error : option string;
  output : option Payload;
  pipelineRef : option Pipeline;
  effects : list Closure;
  calls : list Call;
  console : list (string * Thrown);
  mount : Mount
}.

#[global] Instance PipelineTask_eq_dec : EqDecision PipelineTask.
Proof. solve_decision. Defined.
#[global] Instance Device_eq_dec : EqDecision Device.
Proof. solve_decision. Defined.
#[global] Instance Thrown_eq_dec : EqDecision Thrown.
Proof. solve_decision. Defined.
#[global] Instance PromiseState_eq_dec : EqDecision PromiseState.
Proof. solve_decision. Defined.

(** The state of a hook instance before its first render. *)
Definition init : Hook :=
  mkHook false false None None None [] [] [] NotMounted.

(** ** Completions: [try] / [catch] / [finally] *)

Inductive Completion (A : Type) :=
| Normal (a : A)
| Throw (e : Thrown).
Arguments Normal {A} a.
Arguments Throw {A} e.

Definition Js (A : Type) : Type := Hook -> Completion A * Hook.

Definition ret {A} (a : A) : Js A := fun s => (Normal a, s).

Definition throw {A} (e : Thrown) : Js A := fun s => (Throw e, s).

Definition bind {A B} (m : Js A) (k : A -> Js B) : Js B :=
  fun s =>
    match m s with
    | (Normal a, s') => k a s'
    | (Throw e, s') => (Throw e, s')
    end.

Notation "'do' x <- m 'in' k" := (bind m (fun x => k))
  (at level 10, x name, m at level 100, k at level 200, only parsing).
Notation "m >> k" := (bind m (fun _ => k))
  (at level 65, right associativity, only parsing).

(** [try { body } catch (err) { handler err }] *)
Definition try_catch {A} (body : Js A) (handler : Thrown -> Js A) : Js A :=
  fun s =>
    match body s with
    | (Normal a, s') => (Normal a, s')
    | (Throw e, s') => handler e s'
    end.

(** [try { body } finally { final }]: [final] runs on both completions; the
    completion of [body] stands unless [final] itself throws. *)
Definition try_finally {A} (body : Js A) (final : Js unit) : Js A :=
  fun s =>
    match body s with
    | (c, s') =>
        match final s' with
        | (Normal _, s'') => (c, s'')
        | (Throw e, s'') => (Throw e, s'')
        end
    end.

(** Resuming after [await p] once [p] has settled. *)
Definition await {A} (p : Settled A) : Js A :=
  match p with
  | Resolved a => ret a
  | Rejected e => throw e
  end.

(** ** State setters

    React ignores a state update of a component that is unmounted.  The
    setters below write their cell whatever [mount] says, so they stand
    for the real ones while the hook is mounted; a statement that a cell
    is written is made for a mounted hook.  The ref [pipelineRef] and the
    console are plain objects and are written at any time. *)

Definition setReady (b : bool) : Js unit := fun s =>
  (Normal tt,
   mkHook b (loading s) (error s) (output s) (pipelineRef s)
          (effects s) (calls s) (console s) (mount s)).

Definition setLoading (b : bool) : Js unit := fun s =>
  (Normal tt,
   mkHook (ready s) b (error s) (output s) (pipelineRef s)
          (effects s) (calls s) (console s) (mount s)).

Definition setError (e : option string) : Js unit := fun s =>
  (Normal tt,
   mkHook (ready s) (loading s) e (output s) (pipelineRef s)
          (effects s) (calls s) (console s) (mount s)).

Definition setOutput (o : option Payload) : Js unit := fun s =>
  (Normal tt,
   mkHook (ready s) (loading s) (error s) o (pipelineRef s)
          (effects s) (calls s) (console s) (mount s)).

(** [pipelineRef.current = pipe] *)
Definition setPipelineRef (p : option Pipeline) : Js unit := fun s =>
  (Normal tt,
   mkHook (ready s) (loading s) (error s) (output s) p
          (effects s) (calls s) (console s) (mount s)).

(** [console.error(label, err)] *)
Definition console_error (label : string) (err : Thrown) : Js unit := fun s =>
  (Normal tt,
   mkHook (ready s) (loading s) (error s) (output s) (pipelineRef s)
          (effects s) (calls s) (console s ++ [(label, err)]) (mount s)).

Definition set_effects (l : list Closure) (s : Hook) : Hook :=
  mkHook (ready s) (loading s) (error s) (output s) (pipelineRef s)
         l (calls s) (console s) (mount s).

Definition set_calls (l : list Call) (s : Hook) : Hook :=
  mkHook (ready s) (loading s) (error s) (output s) (pipelineRef s)
         (effects s) l (console s) (mount s).

Definition set_mount (m : Mount) (s : Hook) : Hook :=
  mkHook (ready s) (loading s) (error s) (output s) (pipelineRef s)
         (effects s) (calls s) (console s) m.

(** [err instanceof Error ? err.message : fallback] *)
Definition message_or (err : Thrown) (fallback : string) : string :=
  match err with
  | ErrorObj m => m
  | NonError _ => fallback
  end.

(** The promise of an [async] function settles as its body completes. *)
Definition settle {A} (c : Completion A) : PromiseState :=
  match c with
  | Normal _ => Fulfilled
  | Throw e => RejectedWith e
  end.

(** ** The init effect *)

(** [initPipeline] up to its [await]: [setError(null)], then the call
    [pipeline(task, options.model, { device: options.device || 'auto' })].
    The effect body declared [let cancelled = false] just before. *)
Definition initPipeline_start
    (task : PipelineTask) (options : UsePipelineOptions) (s : Hook) : Hook :=
  let s1 := snd (setError None s) in
  set_effects
    (effects s1 ++
     [mkClosure task (model options) (default Auto (device options))
                false Pending])
    s1.

(** [initPipeline] after its [await], in the effect run whose [cancelled]
    variable holds [c] when the awaited promise settles. *)
Definition initPipeline_resume (c : bool) (p : Settled Pipeline) : Js unit :=
  try_catch
    (do pipe <- await p in
     if negb c
     then setPipelineRef (Some pipe) >> setReady true
     else ret tt)
    (fun err =>
       if negb c
       then setError (Some (message_or err "Failed to load model")) >>
            console_error "Pipeline initialization error:" err
       else ret tt).

Definition cancel (c : Closure) : Closure :=
  mkClosure (cl_task c) (cl_model c) (cl_device c) true (cl_promise c).

Definition set_cl_promise (p : PromiseState) (c : Closure) : Closure :=
  mkClosure (cl_task c) (cl_model c) (cl_device c) (cancelled c) p.

Definition set_call_promise (p : PromiseState) (c : Call) : Call :=
  mkCall (call_pipe c) (call_input c) p.

(** The cleanup function the effect returned, [() => { cancelled = true }]:
    React keeps the one of the latest effect run. *)
Definition cleanup (s : Hook) : Hook :=
  set_effects (alter cancel (pred (length (effects s))) (effects s)) s.

(** A render of the owning component with arguments [task] and [options].
    The effect runs after the first render, and after a later one when an
    entry of its dependency array changed; the previous run's cleanup goes
    first. *)
Definition render
    (task : PipelineTask) (options : UsePipelineOptions) (s : Hook) : Hook :=
  match mount s with
  | NotMounted =>
      set_mount (Mounted (deps_of task options))
                (initPipeline_start task options s)
  | Mounted d =>
      if decide (d = deps_of task options) then s
      else set_mount (Mounted (deps_of task options))
                     (initPipeline_start task options (cleanup s))
  | Unmounted => s
  end.

Definition unmount (s : Hook) : Hook :=
  match mount s with
  | Mounted _ => set_mount Unmounted (cleanup s)
  | _ => s
  end.

(** The promise of the [i]-th [pipeline(...)] call settles: [initPipeline]
    resumes, and its own promise settles as its body completes. *)
Definition load_settles (i : nat) (p : Settled Pipeline) (s : Hook) : Hook :=
  match effects s !! i with
  | Some c =>
      match cl_promise c with
      | Pending =>
          let '(r, s') := initPipeline_resume (cancelled c) p s in
          set_effects (alter (set_cl_promise (settle r)) i (effects s')) s'
      | _ => s
      end
  | None => s
  end.

(** ** [run] *)

(** The promise a call of [run] hands back: already settled, or the one
    tracked with the [j]-th call of the pipeline. *)
Inductive RunPromise :=
| SettledNow (p : PromiseState)
| OfCall (j : nat).

(** [run] up to its [await]. *)
Definition run (input : Payload) (s : Hook) : RunPromise * Hook :=
  match pipelineRef s with
  | None =>
      let '(r, s') := setError (Some "Pipeline not ready") s in
      (SettledNow (settle r), s')
  | Some pipe =>
      let s' := snd ((setLoading true >> setError None) s) in
      (OfCall (length (calls s')),
       set_calls (calls s' ++ [mkCall pipe input Pending]) s')
  end.

(** [run] after its [await]. *)
Definition run_resume (p : Settled Payload) : Js unit :=
  try_finally
    (try_catch
       (do result <- await p in setOutput (Some result))
       (fun err =>
          setError (Some (message_or err "Inference failed")) >>
          console_error "Inference error:" err))
    (setLoading false).

(** The promise of the [j]-th call of the pipeline settles. *)
Definition invoke_settles (j : nat) (p : Settled Payload) (s : Hook) : Hook :=
  match calls s !! j with
  | Some c =>
      match call_promise c with
      | Pending =>
          let '(r, s') := run_resume p s in
          set_calls (alter (set_call_promise (settle r)) j (calls s')) s'
      | _ => s
      end
  | None => s
  end.

(** ** [reset] *)

Definition reset (s : Hook) : Hook :=
  snd ((setOutput None >> setError None) s).

(** ** Traces *)

Inductive Event :=
| Render (task : PipelineTask) (options : UsePipelineOptions)
| Unmount
| LoadSettles (i : nat) (p : Settled Pipeline)
| Run (input : Payload)
| InvokeSettles (j : nat) (p : Settled Payload)
| Reset.

Definition step (e : Event) (s : Hook) : Hook :=
  match e with
  | Render task options => render task options s
  | Unmount => unmount s
  | LoadSettles i p => load_settles i p s
  | Run input => snd (run input s)
  | InvokeSettles j p => invoke_settles j p s
  | Reset => reset s
  end.

Definition exec (tr : list Event) (s : Hook) : Hook :=
  foldl (fun s e => step e s) s tr.

Inductive reachable : Hook -> Prop :=
| reach_init : reachable init
| reach_step e s : reachable s -> reachable (step e s).

(** What the hook returns to the component, together with the ref. *)
Definition visible (s : Hook)
  : bool * bool * option string * option Payload * option Pipeline :=
  (ready s, loading s, error s, output s, pipelineRef s).

(** Calls of the pipeline whose promise has not settled yet. *)
Definition outstanding (s : Hook) : list Call :=
  filter (fun c => call_promise c = Pending) (calls s).

(** Effect runs whose [pipeline(...)] promise has not settled yet. *)
Definition loads_outstanding (s : Hook) : list Closure :=
  filter (fun c => cl_promise c = Pending) (effects s).

(** ** Predicates used in the statements *)

(** Every effect run but the latest has had its cleanup called. *)
Definition superseded_cancelled (l : list Closure) : Prop :=
  forall i c, l !! i = Some c -> S i < length l -> cancelled c = true.

(** No effect run is live. *)
Definition all_cancelled (l : list Closure) : Prop :=
  forall i c, l !! i = Some c -> cancelled c = true.

(** A promise of the hook that has not been rejected. *)
Definition never_rejected (p : PromiseState) : Prop :=
  p = Pending \/ p = Fulfilled.

(** Traces in which the caller gates [run] on the busy flag, as the
    component does with [disabled={!ready || loading || ...}]. *)
Inductive gated : Hook -> Prop :=
| gated_init : gated init
| gated_step e s :
    gated s ->
    (forall input, e = Run input -> loading s = false) ->
    gated (step e s).

(** Two renders with different tasks, for the worked traces below. *)
Definition taskA : Event := Render SentimentAnalysis no_options.
Definition taskB : Event := Render TextGeneration no_options.

(** * The [App] component

    [App.tsx] is the caller of the hook: it keeps the text of the textarea,
    calls [usePipeline('sentiment-analysis')] on every render and wires
    [run] to the button.  [String.prototype.trim] is a built-in of the
    language and is taken as a parameter. *)

Record App := mkApp {
  text : string;
  hook : Hook
}.

(** [useState('I love Transformers.js with React!')] and a hook instance
    that has not rendered yet. *)
Definition App_init : App :=
  mkApp "I love Transformers.js with React!" init.

(** [!text.trim()]: the empty string is the only falsy string. *)
Definition blank (trim : string -> string) (t : string) : bool :=
  bool_decide (trim t = "").

(** One evaluation of the body of [App]: the call
    [usePipeline('sentiment-analysis')], with [options] defaulting to [{}]. *)
Definition App_render (a : App) : App :=
  mkApp (text a) (render SentimentAnalysis no_options (hook a)).

(** [handleAnalyze]: [if (!text.trim()) return; await run(text);].  Its
    promise settles as the one of [run] does. *)
Definition handleAnalyze (trim : string -> string) (a : App)
  : RunPromise * App :=
  if blank trim (text a) then (SettledNow Fulfilled, a)
  else let '(p, h) := run (text a) (hook a) in (p, mkApp (text a) h).

(** [disabled={!ready || loading || !text.trim()}] of the button. *)
Definition button_is_disabled (trim : string -> string) (a : App) : bool :=
  negb (ready (hook a)) || loading (hook a) || blank trim (text a).

(** [disabled={loading}] of the textarea. *)
Definition textarea_is_disabled (a : App) : bool := loading (hook a).

(** [{loading ? '⏳ Analyzing...' : ready ? '🔍 Analyze' : '⏳ Loading model...'}] *)
Definition button_label (a : App) : string :=
  if loading (hook a) then "⏳ Analyzing..."
  else if ready (hook a) then "🔍 Analyze"
  else "⏳ Loading model...".

Definition is_mounted (a : App) : bool :=
  match mount (hook a) with
  | Mounted _ => true
  | _ => false
  end.

(** A state change makes a mounted component evaluate its body again. *)
Definition rerender (a : App) : App :=
  if is_mounted a then App_render a else a.

Inductive AppEvent :=
| FirstRender
| Typing (t : string)
| Click
| AppLoadSettles (i : nat) (p : Settled Pipeline)
| AppInvokeSettles (j : nat) (p : Settled Payload)
| AppUnmount.

(** A disabled textarea fires no [onChange] and a disabled button no
    [onClick]; promises settle whether the component is mounted or not. *)
Definition App_step (trim : string -> string) (e : AppEvent) (a : App) : App :=
  match e with
  | FirstRender =>
      match mount (hook a) with
      | NotMounted => App_render a
      | _ => a
      end
  | Typing t =>
      if is_mounted a && negb (textarea_is_disabled a)
      then rerender (mkApp t (hook a))
      else a
  | Click =>
      if is_mounted a && negb (button_is_disabled trim a)
      then rerender (snd (handleAnalyze trim a))
      else a
  | AppLoadSettles i p =>
      rerender (mkApp (text a) (load_settles i p (hook a)))
  | AppInvokeSettles j p =>
      rerender (mkApp (text a) (invoke_settles j p (hook a)))
  | AppUnmount => mkApp (text a) (unmount (hook a))
  end.

Definition App_exec (trim : string -> string) (tr : list AppEvent) (a : App)
  : App :=
  foldl (fun a e => App_step trim e a) a tr.

Inductive App_reachable (trim : string -> string) : App -> Prop :=
| App_reach_init : App_reachable trim App_init
| App_reach_step e a :
    App_reachable trim a -> App_reachable trim (App_step trim e a).

(** The one effect run an [App] ever has. *)
Definition App_closure (c : Closure) : Prop :=
  cl_task c = SentimentAnalysis /\ cl_model c = None /\ cl_device c = Auto.

(** * The vanilla starter, [main.js] *)

Module Vanilla.

(** The number [score]; its arithmetic is floating point and is not
    modelled, only its identity. *)
Definition Score := nat.

(** Built-ins of the language that the script calls, and the texts of the
    [TypeError]s the engine raises. *)
Record Builtins := mkBuiltins {
  trim : string -> string;
  toLowerCase : string -> string;
  (** [(score * 100).toFixed(1)] *)
  percent : Score -> string;
  (** calling [null] *)
  not_a_function : string;
  (** destructuring [undefined] *)
  cannot_destructure : string;
  (** reading [.message] of [null] or [undefined] *)
  cannot_read : string
}.

(** What a rejection carries, as far as the [catch] block of [analyze] can
    tell: it reads [error.message]. *)
Inductive Reason :=
| WithMessage (message : string)
| WithoutMessage
| Nullish.

Inductive Outcome (A : Type) :=
| Ok (a : A)
| Failed (r : Reason).
Arguments Ok {A} a.
Arguments Failed {A} r.

(** One call [classifier(text)] and the promise of that call of
    [analyze]. *)
Record Analysis := mkAnalysis {
  an_pipe : Pipeline;
  an_text : string;
  an_promise : PromiseState
}.

(** The module variable [classifier], the two elements the script writes
    to, the console, and the promises in flight. *)
Record Page := mkPage {
  classifier : option Pipeline;
  button_text : string;
  button_disabled : bool;
  result_html : string;
  console_log : list (string * option Reason);
  init_promise : PromiseState;
  analyses : list Analysis
}.

Definition quote : string := String (Ascii.ascii_of_nat 34) EmptyString.
Definition newline : string := String (Ascii.ascii_of_nat 10) EmptyString.

(** [<p class="error">Please enter some text!</p>] *)
Definition html_please : string :=
  "<p class=" +:+ quote +:+ "error" +:+ quote +:+
  ">Please enter some text!</p>".

(** [<p class="error">Error: ${error.message}</p>] *)
Definition html_error (message : string) : string :=
  "<p class=" +:+ quote +:+ "error" +:+ quote +:+ ">Error: " +:+
  message +:+ "</p>".

(** The template literal of the result card, line breaks and indentation
    included. *)
Definition html_result (b : Builtins) (label : string) (score : Score)
  : string :=
  newline +:+
  "      <div class=" +:+ quote +:+ "result-card " +:+ toLowerCase b label +:+
  quote +:+ ">" +:+ newline +:+
  "        <strong>" +:+ label +:+ "</strong>" +:+ newline +:+
  "        <p>Confidence: " +:+ percent b score +:+ "%</p>" +:+ newline +:+
  "      </div>" +:+ newline +:+
  "    ".

Definition set_result (h : string) (pg : Page) : Page :=
  mkPage (classifier pg) (button_text pg) (button_disabled pg) h
         (console_log pg) (init_promise pg) (analyses pg).

Definition set_analyses (l : list Analysis) (pg : Page) : Page :=
  mkPage (classifier pg) (button_text pg) (button_disabled pg)
         (result_html pg) (console_log pg) (init_promise pg) l.

Definition set_init_promise (p : PromiseState) (pg : Page) : Page :=
  mkPage (classifier pg) (button_text pg) (button_disabled pg)
         (result_html pg) (console_log pg) p (analyses pg).

Definition set_an_promise (p : PromiseState) (a : Analysis) : Analysis :=
  mkAnalysis (an_pipe a) (an_text a) p.

(** The document as [index.html] gives it, before the script runs. *)
Definition document (button0 : string) (disabled0 : bool) (result0 : string)
  : Page :=
  mkPage None button0 disabled0 result0 [] Pending [].

(** [init] up to its [await]: the button is relabelled and disabled and
    [pipeline('sentiment-analysis')] is called. *)
Definition init (pg : Page) : Page :=
  mkPage (classifier pg) "Loading model..." true (result_html pg)
         (console_log pg) Pending (analyses pg).

(** [init] after its [await]. *)
Definition init_resume (o : Outcome Pipeline) (pg : Page)
  : Completion unit * Page :=
  match o with
  | Ok pipe =>
      (Normal tt,
       mkPage (Some pipe) "Analyze Sentiment" false (result_html pg)
              (console_log pg ++ [("✅ Model loaded successfully", None)])
              (init_promise pg) (analyses pg))
  | Failed r =>
      (Normal tt,
       mkPage (classifier pg) "Failed to load model" (button_disabled pg)
              (result_html pg)
              (console_log pg ++ [("Failed to load model:", Some r)])
              (init_promise pg) (analyses pg))
  end.

(** The [catch] block of [analyze]: reading [error.message] throws on
    [null] and [undefined], and gives [undefined] on a value without that
    property. *)
Definition analyze_catch (b : Builtins) (r : Reason) (pg : Page)
  : Completion unit * Page :=
  match r with
  | WithMessage m => (Normal tt, set_result (html_error m) pg)
  | WithoutMessage => (Normal tt, set_result (html_error "undefined") pg)
  | Nullish => (Throw (ErrorObj (cannot_read b)), pg)
  end.

(** [analyze] up to its [await], on the value of the textarea.  With no
    classifier stored, the call [classifier(text)] throws inside the
    [try]. *)
Definition analyze (b : Builtins) (value : string) (pg : Page)
  : RunPromise * Page :=
  let text := trim b value in
  if bool_decide (text = "") then
    (SettledNow Fulfilled, set_result html_please pg)
  else
    match classifier pg with
    | None =>
        let '(r, pg') := analyze_catch b (WithMessage (not_a_function b)) pg in
        (SettledNow (settle r), pg')
    | Some pipe =>
        (OfCall (length (analyses pg)),
         set_analyses (analyses pg ++ [mkAnalysis pipe text Pending]) pg)
    end.

(** [analyze] after its [await]: [result[0]] is destructured, which throws
    when the array is empty. *)
Definition analyze_resume
    (b : Builtins) (o : Outcome (list (string * Score))) (pg : Page)
  : Completion unit * Page :=
  match o with
  | Ok ((label, score) :: _) =>
      (Normal tt, set_result (html_result b label score) pg)
  | Ok [] => analyze_catch b (WithMessage (cannot_destructure b)) pg
  | Failed r => analyze_catch b r pg
  end.

Inductive PageEvent :=
| LoadSettles (o : Outcome Pipeline)
| Click (value : string)
| AnalyzeSettles (j : nat) (o : Outcome (list (string * Score))).

(** A disabled button dispatches no click. *)
Definition step (b : Builtins) (e : PageEvent) (pg : Page) : Page :=
  match e with
  | LoadSettles o =>
      match init_promise pg with
      | Pending =>
          let '(r, pg') := init_resume o pg in
          set_init_promise (settle r) pg'
      | _ => pg
      end
  | Click value =>
      if button_disabled pg then pg else snd (analyze b value pg)
  | AnalyzeSettles j o =>
      match analyses pg !! j with
      | Some a =>
          match an_promise a with
          | Pending =>
              let '(r, pg') := analyze_resume b o pg in
              set_analyses
                (alter (set_an_promise (settle r)) j (analyses pg')) pg'
          | _ => pg
          end
      | None => pg
      end
  end.

Definition exec (b : Builtins) (tr : list PageEvent) (pg : Page) : Page :=
  foldl (fun pg e => step b e pg) pg tr.

(** The script runs once: it registers the listener and calls [init()]. *)
Inductive reachable (b : Builtins) : Page -> Prop :=
| reach_start button0 disabled0 result0 :
    reachable b (init (document button0 disabled0 result0))
| reach_step e pg : reachable b pg -> reachable b (step b e pg).

End Vanilla.

(** Built-ins for the worked traces below: a text without surrounding
    blanks or capitals is its own trimmed and lower-case form. *)
Definition plain : Vanilla.Builtins :=
  Vanilla.mkBuiltins (fun t => t) (fun t => t) (fun _ => "99.0")
    "classifier is not a function" "Cannot destructure" "Cannot read".

(** * Properties *)

(** ** How each operation touches the fields *)

Lemma reachable_exec tr s : reachable s -> reachable (exec tr s).
Proof.
  revert s. induction tr as [|e tr IH]; intros s Hs; simpl; [done|].
  apply IH. by constructor.
Qed.

(** A stale effect run only records that its promise has settled. *)
Lemma load_settles_stale i p s c :
  effects s !! i = Some c ->
  cancelled c = true ->
  load_settles i p s =
    if decide (cl_promise c = Pending)
    then set_effects (alter (set_cl_promise Fulfilled) i (effects s)) s
    else s.
Proof.
  intros Hi Hc. unfold load_settles. rewrite Hi.
  destruct (cl_promise c); simpl; try done.
  unfold initPipeline_resume. rewrite Hc. by destruct p.
Qed.

(** The live effect run, on success and on failure. *)
Lemma load_settles_live_resolved i pipe s c :
  effects s !! i = Some c ->
  cancelled c = false ->
  cl_promise c = Pending ->
  load_settles i (Resolved pipe) s =
    set_effects (alter (set_cl_promise Fulfilled) i (effects s))
      (snd (setReady true (snd (setPipelineRef (Some pipe) s)))).
Proof.
  intros Hi Hc Hp. unfold load_settles. rewrite Hi, Hp.
  unfold initPipeline_resume. by rewrite Hc.
Qed.

Lemma load_settles_live_rejected i e s c :
  effects s !! i = Some c ->
  cancelled c = false ->
  cl_promise c = Pending ->
  load_settles i (Rejected e) s =
    set_effects (alter (set_cl_promise Fulfilled) i (effects s))
      (snd (console_error "Pipeline initialization error:" e
         (snd (setError (Some (message_or e "Failed to load model")) s)))).
Proof.
  intros Hi Hc Hp. unfold load_settles. rewrite Hi, Hp.
  unfold initPipeline_resume. by rewrite Hc.
Qed.

Lemma run_resume_resolved result s :
  run_resume (Resolved result) s =
    (Normal tt, snd (setLoading false (snd (setOutput (Some result) s)))).
Proof. reflexivity. Qed.

Lemma run_resume_rejected e s :
  run_resume (Rejected e) s =
    (Normal tt,
     snd (setLoading false
       (snd (console_error "Inference error:" e
          (snd (setError (Some (message_or e "Inference failed")) s)))))).
Proof. reflexivity. Qed.



Lemma invoke_settles_pending j p s c :
  calls s !! j = Some c ->
  call_promise c = Pending ->
  invoke_settles j p s =
    set_calls (alter (set_call_promise Fulfilled) j (calls s))
              (snd (run_resume p s)).
Proof.
  intros Hj Hp. unfold invoke_settles. rewrite Hj, Hp.
  by destruct p.
Qed.

Lemma calls_run_resume p s : calls (snd (run_resume p s)) = calls s.
Proof. by destruct p. Qed.

Lemma effects_invoke_settles j p s : effects (invoke_settles j p s) = effects s.
Proof.
  unfold invoke_settles. destruct (calls s !! j) as [c|]; [|done].
  destruct (call_promise c); try done. by destruct p.
Qed.

Lemma effects_run input s : effects (snd (run input s)) = effects s.
Proof. unfold run. by destruct (pipelineRef s). Qed.

Lemma effects_load_settles i p s :
  effects (load_settles i p s) = effects s \/
  exists q, effects (load_settles i p s) = alter (set_cl_promise q) i (effects s).
Proof.
  unfold load_settles. destruct (effects s !! i) as [c|]; [|by left].
  destruct (cl_promise c); try by left.
  right. exists Fulfilled. by destruct (cancelled c), p.
Qed.



Lemma mount_load_settles i p s : mount (load_settles i p s) = mount s.
Proof.
  unfold load_settles. destruct (effects s !! i) as [c|]; [|done].
  destruct (cl_promise c); try done. by destruct (cancelled c), p.
Qed.

Lemma mount_invoke_settles j p s : mount (invoke_settles j p s) = mount s.
Proof.
  unfold invoke_settles. destruct (calls s !! j) as [c|]; [|done].
  destruct (call_promise c); try done. by destruct p.
Qed.

Lemma mount_run input s : mount (snd (run input s)) = mount s.
Proof. unfold run. by destruct (pipelineRef s). Qed.

Lemma mount_render_fresh task options s :
  mount (render task options s) = NotMounted -> False.
Proof.
  unfold render. destruct (mount s) eqn:Hm; simpl; try done.
  - case_decide; simpl; congruence.
  - congruence.
Qed.

(** ** Invariants of reachable states *)

Lemma superseded_cancelled_alter f i l :
  (forall c, cancelled c = true -> cancelled (f c) = true) ->
  superseded_cancelled l -> superseded_cancelled (alter f i l).
Proof.
  intros Hf Hl j c. rewrite length_alter.
  destruct (decide (i = j)) as [->|Hne].
  - rewrite list_lookup_alter_eq. intros Hj Hlt.
    destruct (l !! j) as [c0|] eqn:Hc0; simplify_eq/=.
    apply Hf. by eapply Hl.
  - rewrite list_lookup_alter_ne by done. apply Hl.
Qed.

Lemma all_cancelled_alter f i l :
  (forall c, cancelled c = true -> cancelled (f c) = true) ->
  all_cancelled l -> all_cancelled (alter f i l).
Proof.
  intros Hf Hl j c.
  destruct (decide (i = j)) as [->|Hne].
  - rewrite list_lookup_alter_eq. intros Hj.
    destruct (l !! j) as [c0|] eqn:Hc0; simplify_eq/=.
    apply Hf. by eapply Hl.
  - rewrite list_lookup_alter_ne by done. apply Hl.
Qed.

(** After the cleanup no effect run is live. *)
Lemma all_cancelled_cleanup l :
  superseded_cancelled l ->
  all_cancelled (alter cancel (pred (length l)) l).
Proof.
  intros Hl j c.
  destruct (decide (pred (length l) = j)) as [<-|Hne].
  - rewrite list_lookup_alter_eq. intros Hj.
    destruct (l !! _) as [c0|]; by simplify_eq/=.
  - rewrite list_lookup_alter_ne by done. intros Hj.
    apply (Hl j c Hj). apply lookup_lt_Some in Hj. lia.
Qed.

Lemma superseded_cancelled_snoc l c :
  all_cancelled l -> superseded_cancelled (l ++ [c]).
Proof.
  intros Hl j d Hj Hlt. rewrite length_app in Hlt. simpl in Hlt.
  rewrite lookup_app_l in Hj by lia. by eapply Hl.
Qed.

Lemma all_cancelled_superseded l : all_cancelled l -> superseded_cancelled l.
Proof. intros Hl j c Hj _. by eapply Hl. Qed.

Lemma reachable_effects s :
  reachable s ->
  (mount s = NotMounted -> effects s = []) /\
  superseded_cancelled (effects s) /\
  (mount s = Unmounted -> all_cancelled (effects s)).
Proof.
  induction 1 as [|e s Hs (IHm & IHc & IHu)].
  { split; [done|]. split; [|done]. by intros i c. }
  destruct e as [task options| |i p|input|j p|]; simpl.
  - (* Render *)
    split; [intros Hm; by apply mount_render_fresh in Hm|].
    unfold render. destruct (mount s) eqn:Hm; simpl.
    + rewrite IHm by done. split; [|done]. intros [|i] c; simpl; [lia|done].
    + case_decide; simpl; [by rewrite Hm|]. split; [|done].
      by apply superseded_cancelled_snoc, all_cancelled_cleanup.
    + rewrite Hm. auto.
  - (* Unmount *)
    unfold unmount. destruct (mount s) eqn:Hm; simpl; rewrite ?Hm; auto.
    split; [done|].
    split; [|intros _]; [apply all_cancelled_superseded|];
      by apply all_cancelled_cleanup.
  - (* LoadSettles *)
    rewrite mount_load_settles.
    destruct (effects_load_settles i p s) as [->|[q ->]]; [done|].
    split; [intros Hm; by rewrite IHm|].
    split; [|intros Hm]; [apply superseded_cancelled_alter|apply all_cancelled_alter];
      auto.
  - (* Run *)
    by rewrite mount_run, effects_run.
  - (* InvokeSettles *)
    by rewrite mount_invoke_settles, effects_invoke_settles.
  - (* Reset *)
    done.
Qed.

(** ** Frames: what each operation leaves alone *)

Lemma render_frame task options s :
  ready (render task options s) = ready s /\
  loading (render task options s) = loading s /\
  output (render task options s) = output s /\
  pipelineRef (render task options s) = pipelineRef s /\
  calls (render task options s) = calls s /\
  console (render task options s) = console s.
Proof.
  unfold render. destruct (mount s); simpl; [done| |done].
  by case_decide.
Qed.

Lemma unmount_frame s :
  ready (unmount s) = ready s /\
  loading (unmount s) = loading s /\
  error (unmount s) = error s /\
  output (unmount s) = output s /\
  pipelineRef (unmount s) = pipelineRef s /\
  calls (unmount s) = calls s /\
  console (unmount s) = console s.
Proof. unfold unmount. by destruct (mount s). Qed.

Lemma load_settles_frame i p s :
  loading (load_settles i p s) = loading s /\
  output (load_settles i p s) = output s /\
  calls (load_settles i p s) = calls s.
Proof.
  unfold load_settles. destruct (effects s !! i) as [c|]; [|done].
  destruct (cl_promise c); try done. by destruct (cancelled c), p.
Qed.

Lemma run_frame input s :
  ready (snd (run input s)) = ready s /\
  output (snd (run input s)) = output s /\
  pipelineRef (snd (run input s)) = pipelineRef s /\
  console (snd (run input s)) = console s.
Proof. unfold run. by destruct (pipelineRef s) eqn:E; simpl; rewrite ?E. Qed.

Lemma invoke_settles_frame j p s :
  ready (invoke_settles j p s) = ready s /\
  pipelineRef (invoke_settles j p s) = pipelineRef s.
Proof.
  unfold invoke_settles. destruct (calls s !! j) as [c|]; [|done].
  destruct (call_promise c); try done. by destruct p.
Qed.

(** ** The handle and the [ready] flag go together *)

Lemma reachable_ready s :
  reachable s ->
  (ready s = true <-> is_Some (pipelineRef s)).
Proof.
  induction 1 as [|e s Hs IH].
  { split; [done|]. by intros [? ?]. }
  destruct e as [task options| |i p|input|j p|]; simpl.
  - destruct (render_frame task options s) as (-> & _ & _ & -> & _). done.
  - by destruct (unmount_frame s) as (-> & _ & _ & _ & -> & _).
  - unfold load_settles. destruct (effects s !! i) as [c|]; [|done].
    destruct (cl_promise c); try done.
    by destruct (cancelled c), p.
  - destruct (run_frame input s) as (-> & _ & -> & _). done.
  - destruct (invoke_settles_frame j p s) as (-> & ->). done.
  - done.
Qed.

(** ** Calls of the pipeline and the [loading] flag *)

Lemma outstanding_snoc_pending l pipe input :
  filter (fun c => call_promise c = Pending) (l ++ [mkCall pipe input Pending])
  <> [].
Proof.
  rewrite filter_app. intros H. apply app_eq_nil in H as [_ H].
  by rewrite filter_cons_True in H.
Qed.

Lemma reachable_calls s :
  reachable s ->
  (pipelineRef s = None -> calls s = []) /\
  (outstanding s = [] -> loading s = false) /\
  Forall (fun c => never_rejected (call_promise c)) (calls s).
Proof.
  unfold outstanding.
  induction 1 as [|e s Hs (IHr & IHl & IHp)]; [done|].
  destruct e as [task options| |i p|input|j p|]; simpl.
  - by destruct (render_frame task options s) as (_ & -> & _ & -> & -> & _).
  - by destruct (unmount_frame s) as (_ & -> & _ & _ & -> & -> & _).
  - destruct (load_settles_frame i p s) as (-> & _ & ->).
    split; [|done]. intros Hnone. apply IHr.
    revert Hnone. unfold load_settles.
    destruct (effects s !! i) as [c|]; [|done].
    destruct (cl_promise c); try done.
    by destruct (cancelled c), p.
  - unfold run. destruct (pipelineRef s) as [pipe|] eqn:Href; simpl.
    + split; [by rewrite Href|]. split.
      * intros Hnil. by apply outstanding_snoc_pending in Hnil.
      * apply Forall_app. split; [done|].
        apply Forall_singleton. by left.
    + by rewrite Href.
  - destruct (invoke_settles_frame j p s) as (_ & ->).
    unfold invoke_settles. destruct (calls s !! j) as [c|] eqn:Hj; [|done].
    destruct (call_promise c) eqn:Hc; try done.
    split; [|split].
    + intros Hnone. rewrite IHr in Hj by done. done.
    + by destruct p.
    + assert (calls (snd (run_resume p s)) = calls s) as Hcalls
        by apply calls_run_resume.
      destruct p; simpl in *.
      all: apply Forall_alter; [done|]; intros; by right.
  - done.
Qed.


(** ** Stale loads *)

(** A load that is not the latest one changes nothing but the record that
    its own promise has settled. *)
Lemma superseded_load_only_settles s i p :
  reachable s ->
  S i < length (effects s) ->
  load_settles i p s = s \/
  load_settles i p s =
    set_effects (alter (set_cl_promise Fulfilled) i (effects s)) s.
Proof.
  intros Hs Hlt.
  destruct (lookup_lt_is_Some_2 (effects s) i) as [c Hc]; [lia|].
  destruct (reachable_effects s Hs) as (_ & Hsup & _).
  rewrite (load_settles_stale i p s c Hc (Hsup i c Hc Hlt)).
  case_decide; auto.
Qed.

(** After the unmount no load is live any more. *)
Lemma unmounted_load_only_settles s i p :
  reachable s ->
  mount s = Unmounted ->
  load_settles i p s = s \/
  load_settles i p s =
    set_effects (alter (set_cl_promise Fulfilled) i (effects s)) s.
Proof.
  intros Hs Hm.
  destruct (effects s !! i) as [c|] eqn:Hc.
  - destruct (reachable_effects s Hs) as (_ & _ & Hall).
    rewrite (load_settles_stale i p s c Hc (Hall Hm i c Hc)).
    case_decide; auto.
  - left. unfold load_settles. by rewrite Hc.
Qed.

(** C1. Over every sequence of events (so over every sequence of
    Construct/Configure calls), a load that is not the most recent one is
    discarded when it settles, on success and on failure alike: the ready
    flag, the handle, the error, and also the output, the busy flag, the
    console, the pipeline calls and every [cancelled] variable stay as they
    were.  So only the most recent call's load can change them. *)
Theorem C1_superseded_load_discarded s i p :
  reachable s ->
  S i < length (effects s) ->
  visible (load_settles i p s) = visible s /\
  console (load_settles i p s) = console s /\
  calls (load_settles i p s) = calls s /\
  mount (load_settles i p s) = mount s /\
  (forall k, cancelled <$> effects (load_settles i p s) !! k =
             cancelled <$> effects s !! k).
Proof.
  intros Hs Hlt.
  destruct (superseded_load_only_settles s i p Hs Hlt) as [-> | ->]; [done|].
  repeat split. intros k. simpl.
  destruct (decide (i = k)) as [->|Hne].
  - rewrite list_lookup_alter_eq. by destruct (effects s !! k).
  - by rewrite list_lookup_alter_ne.
Qed.

Lemma C1_witness :
  visible (load_settles 0 (Resolved 7) (exec [taskA; taskB] init)) =
  visible (exec [taskA; taskB] init).
Proof.
  apply (C1_superseded_load_discarded (exec [taskA; taskB] init) 0 (Resolved 7)).
  - apply reachable_exec, reach_init.
  - simpl. lia.
Defined.

(** ** [reset] *)

(** C7. In every state of a mounted hook [reset] sets the output and the
    error to null and leaves every other field as it was: the ready flag,
    the handle, the busy flag, the effect runs, the pipeline calls, the
    console and the mount state. *)
Theorem C7_reset_clears_output_and_error s d :
  mount s = Mounted d ->
  output (reset s) = None /\
  error (reset s) = None /\
  ready (reset s) = ready s /\
  pipelineRef (reset s) = pipelineRef s /\
  loading (reset s) = loading s /\
  effects (reset s) = effects s /\
  calls (reset s) = calls s /\
  console (reset s) = console s /\
  mount (reset s) = mount s.
Proof. intros _. done. Qed.

Lemma C7_witness :
  output (reset (exec [taskA; LoadSettles 0 (Resolved 7); Run "x";
                       InvokeSettles 0 (Resolved "r")] init)) = None /\
  ready (reset (exec [taskA; LoadSettles 0 (Resolved 7); Run "x";
                      InvokeSettles 0 (Resolved "r")] init)) = true.
Proof.
  destruct (C7_reset_clears_output_and_error
              (exec [taskA; LoadSettles 0 (Resolved 7); Run "x";
                     InvokeSettles 0 (Resolved "r")] init)
              (SentimentAnalysis, None, None))
    as (H1 & _ & H3 & _).
  - reflexivity.
  - split; [exact H1 | rewrite H3; reflexivity].
Defined.

(** ** The [ready] flag *)

Lemma ready_step e s : ready s = true -> ready (step e s) = true.
Proof.
  intros Hr. destruct e as [task options| |i p|input|j p|]; simpl.
  - by destruct (render_frame task options s) as (-> & _).
  - by destruct (unmount_frame s) as (-> & _).
  - unfold load_settles. destruct (effects s !! i) as [c|]; [|done].
    destruct (cl_promise c); try done.
    by destruct (cancelled c), p.
  - by destruct (run_frame input s) as (-> & _).
  - by destruct (invoke_settles_frame j p s) as (-> & _).
  - done.
Qed.

(** C9. Once [ready] is true it stays true through every later sequence of
    events: renders with new arguments, the unmount, loads and invocations
    settling either way, [run] and [reset]. *)
Theorem C9_ready_never_reverts tr s :
  ready s = true -> ready (exec tr s) = true.
Proof.
  revert s. induction tr as [|e tr IH]; intros s Hr; simpl; [done|].
  by apply IH, ready_step.
Qed.

Lemma C9_witness :
  ready (exec [taskB; Run "x"; LoadSettles 1 (Rejected (ErrorObj "net"));
               InvokeSettles 0 (Rejected (ErrorObj "oom")); Reset; Unmount]
              (exec [taskA; LoadSettles 0 (Resolved 7)] init)) = true.
Proof.
  apply (C9_ready_never_reverts
           [taskB; Run "x"; LoadSettles 1 (Rejected (ErrorObj "net"));
            InvokeSettles 0 (Rejected (ErrorObj "oom")); Reset; Unmount]
           (exec [taskA; LoadSettles 0 (Resolved 7)] init)).
  reflexivity.
Defined.

(** ** [run] without a handle *)

(** C4. In a reachable state the ready flag is false exactly when no handle
    is stored.  A call of [run] made then on a mounted hook sets the error to
    ["Pipeline not ready"], makes no call of the external library (neither
    a pipeline call nor a load is added), leaves the other fields alone, and
    hands back a promise that is already fulfilled. *)
Theorem C4_run_not_ready input s d :
  reachable s ->
  mount s = Mounted d ->
  ready s = false \/ pipelineRef s = None ->
  fst (run input s) = SettledNow Fulfilled /\
  error (snd (run input s)) = Some "Pipeline not ready" /\
  calls (snd (run input s)) = calls s /\
  effects (snd (run input s)) = effects s /\
  outstanding (snd (run input s)) = [] /\
  ready (snd (run input s)) = false /\
  loading (snd (run input s)) = loading s /\
  output (snd (run input s)) = output s /\
  pipelineRef (snd (run input s)) = None.
Proof.
  intros Hs _ Hnot.
  assert (pipelineRef s = None) as Href.
  { destruct Hnot as [Hr|]; [|done].
    destruct (pipelineRef s) eqn:E; [|done].
    apply reachable_ready in Hs. rewrite E in Hs.
    destruct Hs as [_ Hs]. rewrite Hs in Hr by eauto. done. }
  assert (ready s = false) as Hready.
  { destruct (ready s) eqn:E; [|done].
    apply reachable_ready in Hs. apply Hs in E. rewrite Href in E.
    by destruct E. }
  destruct (reachable_calls s Hs) as (Hcalls & _).
  unfold outstanding, run. rewrite Href. simpl.
  rewrite Hcalls by done. done.
Qed.

Lemma C4_witness :
  fst (run "good" (exec [taskA] init)) = SettledNow Fulfilled /\
  error (snd (run "good" (exec [taskA] init))) = Some "Pipeline not ready".
Proof.
  destruct (C4_run_not_ready "good" (exec [taskA] init)
                             (SentimentAnalysis, None, None))
    as (H1 & H2 & _).
  - apply reachable_exec, reach_init.
  - reflexivity.
  - left. reflexivity.
  - split; [exact H1 | exact H2].
Defined.

Lemma render_changed task options s d :
  mount s = Mounted d ->
  d <> deps_of task options ->
  render task options s =
    set_mount (Mounted (deps_of task options))
              (initPipeline_start task options (cleanup s)).
Proof. intros Hm Hd. unfold render. rewrite Hm. by rewrite decide_False. Qed.

Lemma render_first task options s :
  mount s = NotMounted ->
  render task options s =
    set_mount (Mounted (deps_of task options))
              (initPipeline_start task options s).
Proof. intros Hm. unfold render. by rewrite Hm. Qed.

(** ** [run] while a new load is outstanding *)

(** C10. A render never clears the stored handle.  So after a first load
    has succeeded and a render with changed arguments has started a new
    load that is still outstanding, [run] does not take the
    ["Pipeline not ready"] exit: it calls the handle of the previous
    arguments. *)
Theorem C10_run_uses_previous_handle
    task options task' options' pipe input :
  deps_of task options <> deps_of task' options' ->
  (forall s, pipelineRef (render task' options' s) = pipelineRef s) /\
  let s := exec [Render task options; LoadSettles 0 (Resolved pipe);
                 Render task' options'] init in
  reachable s /\
  loads_outstanding s =
    [mkClosure task' (model options') (default Auto (device options'))
               false Pending] /\
  pipelineRef s = Some pipe /\
  fst (run input s) = OfCall 0 /\
  calls (snd (run input s)) = [mkCall pipe input Pending] /\
  error (snd (run input s)) = None /\
  loading (snd (run input s)) = true.
Proof.
  intros Hne. split.
  { intros s. by destruct (render_frame task' options' s) as (_ & _ & _ & -> & _). }
  intros s. split; [apply reachable_exec, reach_init|].
  subst s. unfold loads_outstanding. simpl.
  rewrite (render_changed task' options' _ (deps_of task options))
    by done.
  simpl. by rewrite filter_cons_False, filter_cons_True.
Qed.

Lemma C10_witness :
  fst (run "x" (exec [taskA; LoadSettles 0 (Resolved 7); taskB] init)) = OfCall 0 /\
  calls (snd (run "x" (exec [taskA; LoadSettles 0 (Resolved 7); taskB] init))) =
    [mkCall 7 "x" Pending].
Proof.
  destruct (C10_run_uses_previous_handle
              SentimentAnalysis no_options TextGeneration no_options 7 "x")
    as (_ & _ & _ & _ & H1 & H2 & _).
  - vm_compute. discriminate.
  - split; [exact H1 | exact H2].
Defined.

(** ** A stale invocation *)

(** C2, evaluated where it fails.  The pipeline loaded for the first
    arguments is called; a render with new arguments supersedes that effect
    run (its [cancelled] variable is now true); then the call settles.  The
    result is written to [output] and [loading] goes from true to false, and
    on a rejection the error is written: [run] has no check of the kind
    [initPipeline] has. *)
Theorem C2_stale_invocation_applied :
  let s := exec [taskA; LoadSettles 0 (Resolved 7); Run "x"; taskB] init in
  cancelled <$> effects s !! 0 = Some true /\
  call_pipe <$> calls s !! 0 = Some 7 /\
  visible s = (true, true, None, None, Some 7) /\
  visible (step (InvokeSettles 0 (Resolved "r")) s) =
    (true, false, None, Some "r", Some 7) /\
  visible (step (InvokeSettles 0 (Rejected (ErrorObj "oom"))) s) =
    (true, false, Some "oom", None, Some 7).
Proof. vm_compute. done. Qed.

(** ** The load, from start to settlement *)

(** C3 fails after a first successful load.  A render with new arguments
    starts a load that is still outstanding, yet [ready] stays true and
    [run] calls the stored handle instead of taking the
    ["Pipeline not ready"] exit; when that load then fails, the error is
    set but [ready] stays true and the handle of the previous arguments
    stays stored. *)
Lemma C3_reconfigure_keeps_ready :
  let s := exec [taskA; LoadSettles 0 (Resolved 7); taskB] init in
  loads_outstanding s <> [] /\
  ready s = true /\
  fst (run "x" s) = OfCall 0 /\
  let s' := step (LoadSettles 1 (Rejected (ErrorObj "net"))) s in
  error s' = Some "net" /\
  ready s' = true /\
  pipelineRef s' = Some 7.
Proof. vm_compute. split; [discriminate|done]. Qed.

(** C3, amended.  The first render starts a load and leaves the hook not
    ready, without error and without handle, so that [run] takes the
    ["Pipeline not ready"] exit.  Every render that runs the effect (the
    first one, and each one with a changed dependency) clears the error
    and appends a live, pending load, and leaves [ready], the handle and
    [loading] as they were.  When a live load succeeds the handle is stored
    and [ready] becomes true; when it fails the error is set to the
    message of the [Error], or to ["Failed to load model"], and [ready] and
    the handle are left as they were. *)
Theorem C3_load_lifecycle :
  (forall task options input,
     let s := render task options init in
     ready s = false /\ error s = None /\ pipelineRef s = None /\
     effects s = [mkClosure task (model options)
                            (default Auto (device options)) false Pending] /\
     fst (run input s) = SettledNow Fulfilled /\
     error (snd (run input s)) = Some "Pipeline not ready") /\
  (forall task options s,
     mount s = NotMounted \/
     (exists d, mount s = Mounted d /\ d <> deps_of task options) ->
     let s' := render task options s in
     error s' = None /\
     ready s' = ready s /\
     pipelineRef s' = pipelineRef s /\
     loading s' = loading s /\
     effects s' !! length (effects s) =
       Some (mkClosure task (model options)
                       (default Auto (device options)) false Pending) /\
     length (effects s') = S (length (effects s))) /\
  (forall s i c pipe,
     effects s !! i = Some c -> cancelled c = false -> cl_promise c = Pending ->
     let s' := load_settles i (Resolved pipe) s in
     pipelineRef s' = Some pipe /\ ready s' = true /\ error s' = error s) /\
  (forall s i c e,
     effects s !! i = Some c -> cancelled c = false -> cl_promise c = Pending ->
     let s' := load_settles i (Rejected e) s in
     error s' = Some (message_or e "Failed to load model") /\
     pipelineRef s' = pipelineRef s /\ ready s' = ready s).
Proof.
  split; [done|]. split; [|split].
  - intros task options s Hm s'. subst s'.
    destruct Hm as [Hm|(d & Hm & Hd)].
    + rewrite render_first by done. simpl.
      rewrite lookup_app_r, Nat.sub_diag, length_app by done.
      simpl. repeat split; lia.
    + rewrite (render_changed _ _ _ d) by done. simpl.
      rewrite length_app, length_alter.
      rewrite lookup_app_r by (by rewrite length_alter).
      rewrite length_alter, Nat.sub_diag.
      simpl. repeat split; lia.
  - intros s i c pipe Hi Hc Hp s'. subst s'.
    by rewrite (load_settles_live_resolved i pipe s c).
  - intros s i c e Hi Hc Hp s'. subst s'.
    by rewrite (load_settles_live_rejected i e s c).
Qed.

Lemma C3_witness :
  pipelineRef (load_settles 0 (Resolved 7) (exec [taskA] init)) = Some 7 /\
  ready (load_settles 0 (Resolved 7) (exec [taskA] init)) = true.
Proof.
  destruct C3_load_lifecycle as (_ & _ & Hok & _).
  destruct (Hok (exec [taskA] init) 0
                (mkClosure SentimentAnalysis None Auto false Pending) 7)
    as (H1 & H2 & _); [reflexivity..|].
  split; [exact H1 | exact H2].
Defined.

(** ** The busy flag *)

Lemma gated_reachable s : gated s -> reachable s.
Proof. induction 1; by constructor. Qed.

(** Settling a pending call takes exactly one call out of the outstanding
    ones. *)
Lemma outstanding_alter_settled (l : list Call) j c :
  l !! j = Some c ->
  call_promise c = Pending ->
  length (filter (fun c => call_promise c = Pending) l) =
  S (length (filter (fun c => call_promise c = Pending)
               (alter (set_call_promise Fulfilled) j l))).
Proof.
  revert j. induction l as [|c0 l IH]; intros j Hj Hc; [done|].
  destruct j as [|j]; simpl in Hj.
  - simplify_eq. simpl.
    rewrite filter_cons_True by done.
    by rewrite filter_cons_False.
  - change (alter (set_call_promise Fulfilled) (S j) (c0 :: l))
      with (c0 :: alter (set_call_promise Fulfilled) j l).
    destruct (decide (call_promise c0 = Pending)) as [Hc0|Hc0].
    + rewrite !filter_cons_True by done. simpl. f_equal. by apply IH.
    + rewrite !filter_cons_False by done. by apply IH.
Qed.

Lemma gated_busy s :
  gated s ->
  length (outstanding s) <= 1 /\
  (loading s = false -> outstanding s = []).
Proof.
  unfold outstanding.
  induction 1 as [|e s Hs (IHn & IHl) Hgate]; [split; [simpl; lia|done]|].
  destruct e as [task options| |i p|input|j p|]; simpl.
  - by destruct (render_frame task options s) as (_ & -> & _ & _ & -> & _).
  - by destruct (unmount_frame s) as (_ & -> & _ & _ & _ & -> & _).
  - by destruct (load_settles_frame i p s) as (-> & _ & ->).
  - specialize (Hgate input eq_refl). specialize (IHl Hgate).
    unfold run. destruct (pipelineRef s) as [pipe|]; simpl; [|done].
    rewrite filter_app, IHl. rewrite filter_cons_True by done.
    simpl. split; [lia|done].
  - unfold invoke_settles. destruct (calls s !! j) as [c|] eqn:Hj; [|done].
    destruct (call_promise c) eqn:Hc; try done.
    pose proof (outstanding_alter_settled (calls s) j c Hj Hc) as Hlen.
    assert (filter (fun c => call_promise c = Pending)
              (alter (set_call_promise Fulfilled) j (calls s)) = []) as Hnil.
    { apply length_zero_iff_nil. lia. }
    destruct p; simpl; rewrite Hnil; simpl; (split; [lia|done]).
  - done.
Qed.

(** C5 fails when two invocations overlap: once the first one settles,
    [loading] is false although the second one is still outstanding. *)
Lemma C5_overlapping_invocations :
  let s := exec [taskA; LoadSettles 0 (Resolved 7); Run "a"; Run "b";
                 InvokeSettles 0 (Resolved "r")] init in
  outstanding s = [mkCall 7 "b" Pending] /\
  loading s = false.
Proof. vm_compute. done. Qed.

(** C5, amended.  While the hook is mounted: in every reachable state
    [loading] is false when no invocation is outstanding; [run] with a
    handle sets [loading]; the settlement of any pending invocation clears
    it, on success and on failure; and when the caller starts no invocation
    while [loading] is true, [loading] is true exactly while an invocation
    is outstanding.  The ["Pipeline not ready"] exit leaves [loading]
    false. *)
Theorem C5_busy_flag :
  (forall s d,
     reachable s -> mount s = Mounted d ->
     outstanding s = [] -> loading s = false) /\
  (forall s d,
     gated s -> mount s = Mounted d ->
     (loading s = true <-> outstanding s <> [])) /\
  (forall s d input pipe,
     mount s = Mounted d ->
     pipelineRef s = Some pipe ->
     loading (snd (run input s)) = true /\
     outstanding (snd (run input s)) <> []) /\
  (forall s d j c p,
     mount s = Mounted d ->
     calls s !! j = Some c -> call_promise c = Pending ->
     loading (invoke_settles j p s) = false) /\
  (forall s input,
     reachable s -> pipelineRef s = None ->
     loading (snd (run input s)) = false /\
     outstanding (snd (run input s)) = []).
Proof.
  split; [|split; [|split; [|split]]].
  - intros s d Hs _. by destruct (reachable_calls s Hs) as (_ & H & _).
  - intros s d Hs _. destruct (gated_busy s Hs) as (_ & Hl).
    apply gated_reachable, reachable_calls in Hs as (_ & Hr & _).
    split.
    + intros Ht Hnil. rewrite Hr in Ht by done. done.
    + intros Hne. destruct (loading s); [done|]. by destruct Hne; apply Hl.
  - intros s d input pipe _ Href. unfold outstanding, run. rewrite Href. simpl.
    split; [done|]. apply outstanding_snoc_pending.
  - intros s d j c p _ Hj Hc. rewrite (invoke_settles_pending j p s c) by done.
    by destruct p.
  - intros s input Hs Href.
    destruct (reachable_calls s Hs) as (Hcalls & Hl & _).
    unfold outstanding in *. unfold run. rewrite Href. simpl.
    rewrite Hcalls in * by done. split; [by apply Hl|done].
Qed.

Lemma C5_witness :
  loading (exec [taskA; LoadSettles 0 (Resolved 7); Run "a";
                 InvokeSettles 0 (Rejected (ErrorObj "oom"))] init) = false.
Proof.
  destruct C5_busy_flag as (H & _).
  apply (H _ (SentimentAnalysis, None, None)).
  - apply reachable_exec, reach_init.
  - reflexivity.
  - reflexivity.
Defined.

(** ** A failing invocation *)

Lemma run_ready input s pipe :
  pipelineRef s = Some pipe ->
  run input s =
    (OfCall (length (calls s)),
     set_calls (calls s ++ [mkCall pipe input Pending])
               (snd (setError None (snd (setLoading true s))))).
Proof. intros Href. unfold run. by rewrite Href. Qed.

(** C6 fails for a rejection that is not an [Error]: the handle rejects
    with the string ["oom"] and the error becomes ["Inference failed"]. *)
Lemma C6_rejection_not_an_Error :
  let s := exec [taskA; LoadSettles 0 (Resolved 7); Run "a";
                 InvokeSettles 0 (Rejected (NonError "oom"))] init in
  error s = Some "Inference failed" /\ error s <> Some "oom".
Proof. vm_compute. split; [done|discriminate]. Qed.

(** C6, amended.  When a pending invocation of a mounted hook fails, the
    error is set to the message of the rejection if it is an [Error] and to
    ["Inference failed"] otherwise; the output, the ready flag and the
    handle are left as they were and [loading] is false.  Taken from the
    call of [run] on: the output is the one from before the call, and in a
    reachable state the hook is ready afterwards and the next [run] calls
    the same handle. *)
Theorem C6_invocation_failure :
  (forall s d j c e,
     mount s = Mounted d ->
     calls s !! j = Some c -> call_promise c = Pending ->
     let s' := invoke_settles j (Rejected e) s in
     error s' = Some (message_or e "Inference failed") /\
     (forall m, e = ErrorObj m -> error s' = Some m) /\
     output s' = output s /\
     loading s' = false /\
     ready s' = ready s /\
     pipelineRef s' = pipelineRef s) /\
  (forall s d input pipe e,
     reachable s -> mount s = Mounted d -> pipelineRef s = Some pipe ->
     let s' := invoke_settles (length (calls s)) (Rejected e)
                              (snd (run input s)) in
     error s' = Some (message_or e "Inference failed") /\
     output s' = output s /\
     loading s' = false /\
     ready s' = true /\
     pipelineRef s' = Some pipe /\
     forall input',
       fst (run input' s') = OfCall (S (length (calls s))) /\
       call_pipe <$> calls (snd (run input' s')) !! S (length (calls s)) =
         Some pipe).
Proof.
  split.
  - intros s d j c e _ Hj Hc s'. subst s'.
    rewrite (invoke_settles_pending j (Rejected e) s c) by done.
    simpl. split; [done|]. split; [|done]. by intros m ->.
  - intros s d input pipe e Hs _ Href s'.
    assert (ready s = true) as Hready.
    { apply reachable_ready in Hs. apply Hs. rewrite Href. by eexists. }
    subst s'. rewrite (run_ready input s pipe Href). simpl snd.
    rewrite (invoke_settles_pending _ _ _ (mkCall pipe input Pending));
      [|simpl; by rewrite lookup_app_r, Nat.sub_diag|done].
    simpl. repeat (split; [done|]).
    intros input'. unfold run. simpl. rewrite Href. simpl.
    rewrite length_alter, length_app. simpl.
    split; [f_equal; lia|].
    rewrite lookup_app_r; rewrite length_alter, length_app; simpl; [|lia].
    by replace (S (length (calls s)) - (length (calls s) + 1)) with 0 by lia.
Qed.

Lemma C6_witness :
  error (invoke_settles 0 (Rejected (ErrorObj "oom"))
           (exec [taskA; LoadSettles 0 (Resolved 7); Run "a"] init)) =
    Some "oom" /\
  output (invoke_settles 0 (Rejected (ErrorObj "oom"))
            (exec [taskA; LoadSettles 0 (Resolved 7); Run "a"] init)) = None.
Proof.
  destruct C6_invocation_failure as (H & _).
  destruct (H (exec [taskA; LoadSettles 0 (Resolved 7); Run "a"] init)
              (SentimentAnalysis, None, None) 0
              (mkCall 7 "a" Pending) (ErrorObj "oom"))
    as (H1 & _ & H3 & _); [reflexivity..|].
  split; [exact H1 | exact H3].
Defined.

(** ** Failures never escape *)



(** * Further properties of the hook *)

(** ** The live load is the one for the current arguments *)

Lemma lookup_last_snoc {A} (l : list A) (x : A) :
  (l ++ [x]) !! pred (length (l ++ [x])) = Some x.
Proof.
  rewrite length_app. simpl.
  replace (pred (length l + 1)) with (length l) by lia.
  by rewrite lookup_app_r, Nat.sub_diag.
Qed.

(** X1. While the hook is mounted, the latest effect run is live (its
    [cancelled] variable is false) and its [pipeline(...)] call carries the
    current task, the current model and the current device, with ['auto']
    standing in for an omitted device. *)
Theorem live_load_matches_arguments s t m d :
  reachable s ->
  mount s = Mounted (t, m, d) ->
  exists c,
    effects s !! pred (length (effects s)) = Some c /\
    cl_task c = t /\ cl_model c = m /\ cl_device c = default Auto d /\
    cancelled c = false.
Proof.
  intros Hs. revert t m d.
  induction Hs as [|e s Hs IH]; intros t m d Hm; [done|].
  destruct e as [task options| |i p|input|j p|]; simpl in *.
  - unfold render in *. destruct (mount s) as [|d0|] eqn:Hm0; simpl in *.
    + simplify_eq. eexists. split; [apply lookup_last_snoc|done].
    + case_decide as Hd; simpl in *.
      * rewrite Hm0 in Hm. by apply IH.
      * simplify_eq. eexists. split; [apply lookup_last_snoc|done].
    + congruence.
  - unfold unmount in Hm.
    destruct (mount s) eqn:Hm0; simpl in Hm; rewrite ?Hm0 in Hm; discriminate.
  - rewrite mount_load_settles in Hm.
    destruct (IH t m d Hm) as (c & Hc & Ht & Hmo & Hd & Hcan).
    destruct (effects_load_settles i p s) as [->|[q ->]]; [by exists c|].
    rewrite length_alter, list_lookup_alter, Hc.
    case_decide as Hi; [subst i; rewrite Hc; exists (set_cl_promise q c)|exists c];
      done.
  - rewrite mount_run in Hm. rewrite effects_run. by apply IH.
  - rewrite mount_invoke_settles in Hm. rewrite effects_invoke_settles.
    by apply IH.
  - by apply IH.
Qed.

Lemma live_load_matches_arguments_witness :
  exists c,
    effects (exec [taskA; Render TextGeneration (mkOptions (Some "m") None)]
                  init) !! 1 = Some c /\
    cl_task c = TextGeneration /\ cl_model c = Some "m" /\
    cl_device c = Auto /\ cancelled c = false.
Proof.
  apply (live_load_matches_arguments
           (exec [taskA; Render TextGeneration (mkOptions (Some "m") None)] init)
           TextGeneration (Some "m") None).
  - apply reachable_exec, reach_init.
  - reflexivity.
Defined.

(** ** Gating on [ready] *)

(** X2. In a reachable state of a mounted hook with [ready] true a handle
    is stored, and [run] calls it with the input: it clears the error, sets
    [loading], leaves the output alone and does not take the
    ["Pipeline not ready"] exit. *)
Theorem ready_run_calls_handle input s d :
  reachable s ->
  mount s = Mounted d ->
  ready s = true ->
  exists pipe,
    pipelineRef s = Some pipe /\
    fst (run input s) = OfCall (length (calls s)) /\
    calls (snd (run input s)) = calls s ++ [mkCall pipe input Pending] /\
    error (snd (run input s)) = None /\
    loading (snd (run input s)) = true /\
    output (snd (run input s)) = output s.
Proof.
  intros Hs _ Hr. apply reachable_ready in Hs. apply Hs in Hr as [pipe Href].
  exists pipe. by rewrite (run_ready input s pipe Href).
Qed.

Lemma ready_run_calls_handle_witness :
  exists pipe,
    pipelineRef (exec [taskA; LoadSettles 0 (Resolved 7)] init) = Some pipe /\
    calls (snd (run "good" (exec [taskA; LoadSettles 0 (Resolved 7)] init))) =
      [mkCall pipe "good" Pending].
Proof.
  destruct (ready_run_calls_handle "good"
              (exec [taskA; LoadSettles 0 (Resolved 7)] init)
              (SentimentAnalysis, None, None))
    as (pipe & H1 & _ & H3 & _).
  - apply reachable_exec, reach_init.
  - reflexivity.
  - reflexivity.
  - exists pipe. split; [exact H1 | exact H3].
Defined.

(** ** A successful invocation *)

(** X3. On a mounted hook, whenever a pending call of the pipeline
    resolves, the result is stored in the output and [loading] becomes
    false, while the error, the ready flag, the handle and the console are
    left as they were and the promise of that [run] is fulfilled.  When the
    call resolves before anything else happens, the error is still the
    null that [run] wrote. *)
Theorem run_success_stores_result :
  (forall s d j c result,
     mount s = Mounted d ->
     calls s !! j = Some c -> call_promise c = Pending ->
     let s' := invoke_settles j (Resolved result) s in
     output s' = Some result /\
     loading s' = false /\
     error s' = error s /\
     ready s' = ready s /\
     pipelineRef s' = pipelineRef s /\
     console s' = console s /\
     calls s' !! j = Some (mkCall (call_pipe c) (call_input c) Fulfilled) /\
     length (calls s') = length (calls s)) /\
  (forall s d input pipe result,
     mount s = Mounted d ->
     pipelineRef s = Some pipe ->
     let s' := invoke_settles (length (calls s)) (Resolved result)
                              (snd (run input s)) in
     output s' = Some result /\
     error s' = None /\
     loading s' = false /\
     ready s' = ready s /\
     pipelineRef s' = Some pipe /\
     console s' = console s /\
     calls s' = calls s ++ [mkCall pipe input Fulfilled]).
Proof.
  split.
  - intros s d j c result _ Hj Hc s'. subst s'.
    rewrite (invoke_settles_pending j (Resolved result) s c) by done.
    simpl. repeat (split; [done|]).
    rewrite list_lookup_alter_eq, Hj, length_alter. done.
  - intros s d input pipe result _ Href s'. subst s'.
    rewrite (run_ready input s pipe Href). simpl snd.
    rewrite (invoke_settles_pending _ _ _ (mkCall pipe input Pending));
      [|simpl; by rewrite lookup_app_r, Nat.sub_diag|done].
    simpl. repeat (split; [done|]).
    rewrite alter_app_r_alt by done. by rewrite Nat.sub_diag.
Qed.

Lemma run_success_stores_result_witness :
  output (invoke_settles 0 (Resolved "POSITIVE")
            (exec [taskA; LoadSettles 0 (Resolved 7); Run "good"; taskB;
                   LoadSettles 1 (Rejected (ErrorObj "net"))] init))
  = Some "POSITIVE" /\
  error (invoke_settles 0 (Resolved "POSITIVE")
            (exec [taskA; LoadSettles 0 (Resolved 7); Run "good"; taskB;
                   LoadSettles 1 (Rejected (ErrorObj "net"))] init))
  = Some "net".
Proof.
  destruct run_success_stores_result as (H & _).
  destruct (H (exec [taskA; LoadSettles 0 (Resolved 7); Run "good"; taskB;
                     LoadSettles 1 (Rejected (ErrorObj "net"))] init)
              (TextGeneration, None, None) 0 (mkCall 7 "good" Pending)
              "POSITIVE")
    as (H1 & _ & H3 & _); [reflexivity..|].
  split; [exact H1 | exact (eq_trans H3 eq_refl)].
Defined.

(** ** Loads after the unmount *)

(** X4. The unmount itself changes nothing the component sees, and once
    the hook is unmounted a load that settles, either way, is discarded. *)
Theorem unmount_discards_loads s i p :
  reachable s ->
  mount s = Unmounted ->
  visible (load_settles i p s) = visible s /\
  console (load_settles i p s) = console s /\
  calls (load_settles i p s) = calls s.
Proof.
  intros Hs Hm.
  by destruct (unmounted_load_only_settles s i p Hs Hm) as [-> | ->].
Qed.

Lemma unmount_discards_loads_witness :
  visible (load_settles 0 (Resolved 7) (exec [taskA; Unmount] init)) =
  visible (exec [taskA; Unmount] init).
Proof.
  apply (unmount_discards_loads (exec [taskA; Unmount] init) 0 (Resolved 7)).
  - apply reachable_exec, reach_init.
  - reflexivity.
Defined.

(** ** Renders with unchanged arguments *)


(** ** The order in which loads settle *)

Lemma visible_load_settles k q s :
  visible (load_settles k q s) =
    match effects s !! k with
    | Some c =>
        match cl_promise c with
        | Pending => visible (snd (initPipeline_resume (cancelled c) q s))
        | _ => visible s
        end
    | None => visible s
    end.
Proof.
  unfold load_settles. destruct (effects s !! k) as [c|]; [|done].
  destruct (cl_promise c); try done. by destruct (cancelled c), q.
Qed.

Lemma visible_resume_set_effects c q l s :
  visible (snd (initPipeline_resume c q (set_effects l s))) =
  visible (snd (initPipeline_resume c q s)).
Proof. by destruct c, q. Qed.

Lemma length_effects_load_settles i p s :
  length (effects (load_settles i p s)) = length (effects s).
Proof.
  destruct (effects_load_settles i p s) as [->|[q ->]]; [done|].
  apply length_alter.
Qed.

(** X6. Whether a superseded load settles before or after the latest one
    makes no difference to what the component sees: in both orders the
    outcome is the one of the latest load alone. *)
Theorem load_settle_order_irrelevant s i p q :
  reachable s ->
  S i < length (effects s) ->
  let k := pred (length (effects s)) in
  visible (load_settles k q (load_settles i p s)) =
    visible (load_settles k q s) /\
  visible (load_settles i p (load_settles k q s)) =
    visible (load_settles k q s).
Proof.
  intros Hs Hlt k. split.
  - destruct (superseded_load_only_settles s i p Hs Hlt) as [-> | ->]; [done|].
    rewrite !visible_load_settles. simpl.
    rewrite list_lookup_alter_ne by (subst k; lia).
    destruct (effects s !! k) as [c|]; [|done].
    destruct (cl_promise c); try done.
    apply visible_resume_set_effects.
  - assert (reachable (load_settles k q s)) as Hs'
      by apply (reach_step (LoadSettles k q) s Hs).
    destruct (superseded_load_only_settles (load_settles k q s) i p Hs')
      as [-> | ->]; try done.
    by rewrite length_effects_load_settles.
Qed.

Lemma load_settle_order_irrelevant_witness :
  visible (load_settles 1 (Resolved 8)
             (load_settles 0 (Resolved 7) (exec [taskA; taskB] init))) =
  visible (load_settles 1 (Resolved 8) (exec [taskA; taskB] init)).
Proof.
  destruct (load_settle_order_irrelevant
              (exec [taskA; taskB] init) 0 (Resolved 7) (Resolved 8))
    as (H & _).
  - apply reachable_exec, reach_init.
  - simpl. lia.
  - exact H.
Defined.

(** * Properties of the [App] component *)

Lemma gated_render task options s : gated s -> gated (render task options s).
Proof. intros Hs. by apply (gated_step (Render task options) s). Qed.

Lemma gated_rerender a : gated (hook a) -> gated (hook (rerender a)).
Proof.
  intros Hg. unfold rerender. destruct (is_mounted a); [|done].
  by apply gated_render.
Qed.

Lemma button_enabled trim a :
  button_is_disabled trim a = false ->
  ready (hook a) = true /\ loading (hook a) = false /\
  blank trim (text a) = false.
Proof.
  unfold button_is_disabled.
  destruct (ready (hook a)), (loading (hook a)), (blank trim (text a)); done.
Qed.

(** Every state of the component is one of a hook whose [run] was only
    called with [loading] false. *)
Lemma App_reachable_gated trim a : App_reachable trim a -> gated (hook a).
Proof.
  induction 1 as [|e a Ha IH]; [constructor|].
  destruct e as [|t| |i p|j p|]; simpl.
  - destruct (mount (hook a)); [|done..]. by apply gated_render.
  - destruct (is_mounted a && negb (textarea_is_disabled a)); [|done].
    by apply gated_rerender.
  - destruct (is_mounted a) eqn:Hm; simpl; [|done].
    destruct (button_is_disabled trim a) eqn:Hb; simpl; [done|].
    apply button_enabled in Hb as (_ & Hl & Hbl).
    apply gated_rerender. unfold handleAnalyze. rewrite Hbl.
    rewrite (surjective_pairing (run _ _)). simpl.
    apply (gated_step (Run (text a)) (hook a) IH).
    intros input _. done.
  - apply gated_rerender. simpl.
    by apply (gated_step (LoadSettles i p) (hook a)).
  - apply gated_rerender. simpl.
    by apply (gated_step (InvokeSettles j p) (hook a)).
  - by apply (gated_step Unmount (hook a)).
Qed.

(** The hook of the component is only ever given the one set of
    arguments. *)
Lemma App_reachable_effects trim a :
  App_reachable trim a ->
  (mount (hook a) = NotMounted /\ effects (hook a) = []) \/
  ((mount (hook a) = Mounted (deps_of SentimentAnalysis no_options) \/
    mount (hook a) = Unmounted) /\
   exists c, effects (hook a) = [c] /\ App_closure c).
Proof.
  assert (forall a,
    mount (hook a) = Mounted (deps_of SentimentAnalysis no_options) ->
    rerender a = a) as Hre.
  { intros [t h] Hm. unfold rerender, is_mounted, App_render. simpl in *.
    rewrite Hm. unfold render. rewrite Hm. by rewrite decide_True. }
  assert (forall a, mount (hook a) = Unmounted -> rerender a = a) as Hre'.
  { intros [t h] Hm. unfold rerender, is_mounted. simpl in *. by rewrite Hm. }
  assert (forall a, mount (hook a) = NotMounted -> rerender a = a) as Hre''.
  { intros [t h] Hm. unfold rerender, is_mounted. simpl in *. by rewrite Hm. }
  induction 1 as [|e a Ha IH]; [by left|].
  destruct e as [|t| |i p|j p|]; simpl.
  - destruct IH as [[Hm He]|[Hm Hc]].
    + rewrite Hm. right. simpl. unfold render. rewrite Hm. simpl.
      rewrite He. simpl.
      split; [by left|]. eexists. split; [done|]. by repeat split.
    + right.
      destruct Hm as [Hm|Hm]; rewrite Hm; simpl; (split; [rewrite Hm; auto|done]).
  - destruct (is_mounted a && negb (textarea_is_disabled a)); [|done].
    destruct IH as [[Hm He]|[[Hm|Hm] Hc]].
    + rewrite Hre'' by done. by left.
    + rewrite Hre by done. right. split; [by left|done].
    + rewrite Hre' by done. right. split; [by right|done].
  - destruct (is_mounted a && negb (button_is_disabled trim a)); [|done].
    assert (mount (hook (snd (handleAnalyze trim a))) = mount (hook a) /\
            effects (hook (snd (handleAnalyze trim a))) = effects (hook a))
      as [Hm' He'].
    { unfold handleAnalyze. destruct (blank trim (text a)); [done|].
      rewrite (surjective_pairing (run _ _)). simpl.
      by rewrite mount_run, effects_run. }
    destruct IH as [[Hm He]|[[Hm|Hm] Hc]].
    + rewrite Hre'' by congruence. left. by rewrite Hm', He'.
    + rewrite Hre by congruence. right. rewrite Hm', He'. split; [by left|done].
    + rewrite Hre' by congruence. right. rewrite Hm', He'. split; [by right|done].
  - pose proof (mount_load_settles i p (hook a)) as Hm'.
    assert ((mount (hook a) = NotMounted /\
             effects (load_settles i p (hook a)) = []) \/
            ((mount (hook a) = Mounted (deps_of SentimentAnalysis no_options) \/
              mount (hook a) = Unmounted) /\
             exists c, effects (load_settles i p (hook a)) = [c] /\
                       App_closure c)) as IH'.
    { destruct (effects_load_settles i p (hook a)) as [->|[q ->]]; [done|].
      destruct IH as [[Hm He]|[Hm (c & -> & Hc)]].
      - left. by rewrite He.
      - right. split; [done|]. destruct i as [|i]; simpl; eauto. }
    destruct IH' as [[Hm He]|[[Hm|Hm] Hc]].
    + rewrite Hre'' by (simpl; congruence). left. simpl. by rewrite Hm'.
    + rewrite Hre by (simpl; congruence). right. simpl. rewrite Hm'.
      split; [by left|done].
    + rewrite Hre' by (simpl; congruence). right. simpl. rewrite Hm'.
      split; [by right|done].
  - pose proof (mount_invoke_settles j p (hook a)) as Hm'.
    pose proof (effects_invoke_settles j p (hook a)) as He'.
    destruct IH as [[Hm He]|[[Hm|Hm] Hc]].
    + rewrite Hre'' by (simpl; congruence). left. simpl. by rewrite Hm', He'.
    + rewrite Hre by (simpl; congruence). right. simpl. rewrite Hm', He'.
      split; [by left|done].
    + rewrite Hre' by (simpl; congruence). right. simpl. rewrite Hm', He'.
      split; [by right|done].
  - unfold unmount. destruct IH as [[Hm He]|[[Hm|Hm] (c & He & Hc)]];
      rewrite Hm; simpl.
    + by left.
    + right. split; [by right|]. rewrite He. simpl.
      exists (cancel c). split; [done|].
      destruct Hc as (? & ? & ?). by repeat split.
    + right. split; [by right|]. by exists c.
Qed.

(** X7. However often the component renders, types, clicks or has promises
    settle, the hook starts at most one load, and that load is for
    ['sentiment-analysis'] with no model and device ['auto']; a mounted
    component has started exactly one. *)
Theorem App_loads_once trim a :
  App_reachable trim a ->
  length (effects (hook a)) <= 1 /\
  Forall App_closure (effects (hook a)) /\
  (is_mounted a = true -> length (effects (hook a)) = 1).
Proof.
  intros Ha. unfold is_mounted.
  destruct (App_reachable_effects trim a Ha)
    as [[Hm He]|[Hm (c & He & Hc)]]; rewrite He; simpl.
  - rewrite Hm. split; [lia|]. by split.
  - split; [lia|]. split; [|done]. by apply Forall_singleton.
Qed.

Lemma App_loads_once_witness :
  length (effects (hook (App_exec (fun t => t)
    [FirstRender; Typing "a"; AppLoadSettles 0 (Resolved 4); Click;
     Typing "b"; AppInvokeSettles 0 (Resolved "r"); Click]
    App_init))) <= 1.
Proof.
  destruct (App_loads_once (fun t => t)
    (App_exec (fun t => t)
       [FirstRender; Typing "a"; AppLoadSettles 0 (Resolved 4); Click;
        Typing "b"; AppInvokeSettles 0 (Resolved "r"); Click]
       App_init)) as (H & _).
  - repeat apply App_reach_step. apply App_reach_init.
  - exact H.
Defined.

(** X8. Whenever the button of a mounted component is enabled, a click
    calls the stored pipeline with the text as typed (not trimmed), with
    the error cleared and the button then reading ["⏳ Analyzing..."]: a
    click never ends in ["Pipeline not ready"]. *)
Theorem App_click_calls_pipeline trim a :
  App_reachable trim a ->
  is_mounted a = true ->
  button_is_disabled trim a = false ->
  exists pipe,
    pipelineRef (hook a) = Some pipe /\
    calls (hook (App_step trim Click a)) =
      calls (hook a) ++ [mkCall pipe (text a) Pending] /\
    error (hook (App_step trim Click a)) = None /\
    text (App_step trim Click a) = text a /\
    button_label (App_step trim Click a) = "⏳ Analyzing...".
Proof.
  intros Ha Hmount Hb.
  pose proof (button_enabled trim a Hb) as (Hr & Hl & Hbl).
  pose proof (gated_reachable _ (App_reachable_gated trim a Ha)) as Hreach.
  destruct (proj1 (reachable_ready (hook a) Hreach) Hr) as (pipe & Href).
  exists pipe. split; [done|].
  assert (mount (hook a) = Mounted (deps_of SentimentAnalysis no_options))
    as Hm.
  { destruct (App_reachable_effects trim a Ha) as [[Hm _]|[[Hm|Hm] _]];
      try done; unfold is_mounted in Hmount; by rewrite Hm in Hmount. }
  simpl. rewrite Hmount, Hb. simpl.
  unfold handleAnalyze. rewrite Hbl.
  rewrite (run_ready (text a) (hook a) pipe Href). simpl.
  unfold rerender, is_mounted, App_render, button_label. simpl.
  rewrite Hm. unfold render. simpl. done.
Qed.

Lemma App_click_calls_pipeline_witness :
  exists pipe,
    pipelineRef (hook (App_exec (fun t => t)
      [FirstRender; AppLoadSettles 0 (Resolved 4)] App_init)) = Some pipe /\
    calls (hook (App_step (fun t => t) Click (App_exec (fun t => t)
      [FirstRender; AppLoadSettles 0 (Resolved 4)] App_init))) =
      [mkCall pipe "I love Transformers.js with React!" Pending].
Proof.
  destruct (App_click_calls_pipeline (fun t => t)
    (App_exec (fun t => t) [FirstRender; AppLoadSettles 0 (Resolved 4)]
              App_init)) as (pipe & H1 & H2 & _).
  - repeat apply App_reach_step. apply App_reach_init.
  - reflexivity.
  - reflexivity.
  - exists pipe. split; [exact H1 | exact H2].
Defined.

(** X9. In the mounted component at most one invocation is outstanding at
    any time, and [loading] is true exactly while one is: that is when the
    button reads ["⏳ Analyzing..."] and the textarea is disabled. *)
Theorem App_busy_while_outstanding trim a :
  App_reachable trim a ->
  is_mounted a = true ->
  length (outstanding (hook a)) <= 1 /\
  (loading (hook a) = true <-> outstanding (hook a) <> []) /\
  (button_label a = "⏳ Analyzing..." <-> outstanding (hook a) <> []) /\
  (textarea_is_disabled a = true <-> outstanding (hook a) <> []).
Proof.
  intros Ha _. apply App_reachable_gated in Ha.
  destruct (gated_busy (hook a) Ha) as (Hlen & Hl).
  apply gated_reachable, reachable_calls in Ha as (_ & Hr & _).
  assert (loading (hook a) = true <-> outstanding (hook a) <> []) as Hiff.
  { split.
    - intros Ht Hnil. rewrite Hr in Ht by done. done.
    - intros Hne. destruct (loading (hook a)); [done|]. by destruct Hne; apply Hl. }
  split; [done|]. split; [done|]. split; [|done].
  rewrite <- Hiff. unfold button_label.
  destruct (loading (hook a)), (ready (hook a)); split; done.
Qed.

Lemma App_busy_while_outstanding_witness :
  length (outstanding (hook (App_exec (fun t => t)
    [FirstRender; AppLoadSettles 0 (Resolved 4); Click; Click]
    App_init))) <= 1.
Proof.
  destruct (App_busy_while_outstanding (fun t => t)
    (App_exec (fun t => t)
       [FirstRender; AppLoadSettles 0 (Resolved 4); Click; Click]
       App_init)) as (H & _).
  - repeat apply App_reach_step. apply App_reach_init.
  - reflexivity.
  - exact H.
Defined.

(** * Properties of the vanilla starter *)

Lemma vanilla_reachable_exec b tr pg :
  Vanilla.reachable b pg -> Vanilla.reachable b (Vanilla.exec b tr pg).
Proof.
  revert pg. induction tr as [|e tr IH]; intros pg Hpg; simpl; [done|].
  apply IH. by constructor.
Qed.

Lemma vanilla_analyze_catch_frame b r pg :
  Vanilla.classifier (snd (Vanilla.analyze_catch b r pg)) =
    Vanilla.classifier pg /\
  Vanilla.button_text (snd (Vanilla.analyze_catch b r pg)) =
    Vanilla.button_text pg /\
  Vanilla.button_disabled (snd (Vanilla.analyze_catch b r pg)) =
    Vanilla.button_disabled pg /\
  Vanilla.init_promise (snd (Vanilla.analyze_catch b r pg)) =
    Vanilla.init_promise pg /\
  Vanilla.analyses (snd (Vanilla.analyze_catch b r pg)) =
    Vanilla.analyses pg.
Proof. by destruct r. Qed.

Lemma vanilla_analyze_resume_frame b o pg :
  Vanilla.classifier (snd (Vanilla.analyze_resume b o pg)) =
    Vanilla.classifier pg /\
  Vanilla.button_text (snd (Vanilla.analyze_resume b o pg)) =
    Vanilla.button_text pg /\
  Vanilla.button_disabled (snd (Vanilla.analyze_resume b o pg)) =
    Vanilla.button_disabled pg /\
  Vanilla.init_promise (snd (Vanilla.analyze_resume b o pg)) =
    Vanilla.init_promise pg /\
  Vanilla.analyses (snd (Vanilla.analyze_resume b o pg)) =
    Vanilla.analyses pg.
Proof.
  destruct o as [[|[label score] rest]|r]; simpl; try done;
    apply vanilla_analyze_catch_frame.
Qed.

(** The button, the classifier and the load go together. *)
Lemma vanilla_reachable_button b pg :
  Vanilla.reachable b pg ->
  (Vanilla.button_disabled pg = false <-> is_Some (Vanilla.classifier pg)) /\
  (Vanilla.button_disabled pg = false ->
   Vanilla.button_text pg = "Analyze Sentiment") /\
  (Vanilla.init_promise pg = Pending ->
   Vanilla.button_disabled pg = true /\
   Vanilla.button_text pg = "Loading model...") /\
  (Vanilla.classifier pg = None -> Vanilla.analyses pg = []).
Proof.
  induction 1 as [button0 disabled0 result0|e pg Hpg (IHb & IHt & IHp & IHa)].
  { simpl. split; [split; [done|by intros [? ?]]|done]. }
  destruct e as [o|value|j o]; simpl.
  - destruct (Vanilla.init_promise pg) eqn:Hp;
      [|(split; [done|]; split; [done|]; split; [by rewrite Hp|done])..].
    destruct (IHp eq_refl) as (Hd & Ht).
    destruct o as [pipe|r]; simpl.
    + split; [split; [by eexists|done]|done].
    + rewrite Hd. split; [|done]. split; [done|].
      intros Hsome. apply IHb in Hsome. congruence.
  - destruct (Vanilla.button_disabled pg) eqn:Hd; [by rewrite Hd|].
    destruct (proj1 IHb eq_refl) as [pipe Hc].
    unfold Vanilla.analyze. case_bool_decide; simpl.
    + by rewrite Hd.
    + rewrite Hc. simpl. rewrite Hd, Hc. split; [done|].
      split; [done|]. split; [done|]. done.
  - destruct (Vanilla.analyses pg !! j) as [a|] eqn:Hj; [|done].
    destruct (Vanilla.an_promise a); try done.
    rewrite (surjective_pairing (Vanilla.analyze_resume b o pg)). simpl.
    destruct (vanilla_analyze_resume_frame b o pg)
      as (-> & -> & -> & -> & ->).
    split; [done|]. split; [done|]. split; [done|].
    intros Hnone. rewrite IHa in Hj by done. done.
Qed.

(** X10. On the page the button is enabled exactly when a classifier is
    stored, and then it reads ['Analyze Sentiment']; while the load is
    pending it is disabled and reads ['Loading model...']; and no call of
    a classifier exists before one is stored. *)
Theorem vanilla_button_enabled_iff_loaded b pg :
  Vanilla.reachable b pg ->
  (Vanilla.button_disabled pg = false <-> is_Some (Vanilla.classifier pg)) /\
  (Vanilla.button_disabled pg = false ->
   Vanilla.button_text pg = "Analyze Sentiment") /\
  (Vanilla.init_promise pg = Pending ->
   Vanilla.button_disabled pg = true /\
   Vanilla.button_text pg = "Loading model...") /\
  (Vanilla.classifier pg = None -> Vanilla.analyses pg = []).
Proof. apply vanilla_reachable_button. Qed.

Lemma vanilla_button_enabled_iff_loaded_witness :
  Vanilla.button_disabled
    (Vanilla.exec plain [Vanilla.LoadSettles (Vanilla.Ok 5)]
       (Vanilla.init (Vanilla.document "Analyze" false ""))) = false <->
  is_Some (Vanilla.classifier
    (Vanilla.exec plain [Vanilla.LoadSettles (Vanilla.Ok 5)]
       (Vanilla.init (Vanilla.document "Analyze" false "")))).
Proof.
  destruct (vanilla_button_enabled_iff_loaded plain
    (Vanilla.exec plain [Vanilla.LoadSettles (Vanilla.Ok 5)]
       (Vanilla.init (Vanilla.document "Analyze" false "")))) as (H & _).
  - apply vanilla_reachable_exec. constructor.
  - exact H.
Defined.

(** X11. On a reachable page with the button enabled, a click with text
    that is not blank calls the stored classifier with the trimmed text and
    writes nothing else; a click with blank text asks for text and calls
    nothing.  The call never meets a missing classifier. *)
Theorem vanilla_click_calls_classifier b value pg :
  Vanilla.reachable b pg ->
  Vanilla.button_disabled pg = false ->
  (Vanilla.trim b value <> "" ->
   exists pipe,
     Vanilla.classifier pg = Some pipe /\
     Vanilla.step b (Vanilla.Click value) pg =
       Vanilla.set_analyses
         (Vanilla.analyses pg ++
          [Vanilla.mkAnalysis pipe (Vanilla.trim b value) Pending]) pg) /\
  (Vanilla.trim b value = "" ->
   Vanilla.step b (Vanilla.Click value) pg =
     Vanilla.set_result Vanilla.html_please pg).
Proof.
  intros Hpg Hd.
  destruct (vanilla_reachable_button b pg Hpg) as (Hb & _).
  destruct (proj1 Hb Hd) as [pipe Hc].
  simpl. rewrite Hd. unfold Vanilla.analyze. split.
  - intros Hne. exists pipe. split; [done|].
    rewrite bool_decide_eq_false_2 by done. by rewrite Hc.
  - intros He. by rewrite bool_decide_eq_true_2.
Qed.

Lemma vanilla_click_calls_classifier_witness :
  Vanilla.analyses
    (Vanilla.step plain (Vanilla.Click "good")
       (Vanilla.exec plain [Vanilla.LoadSettles (Vanilla.Ok 5)]
          (Vanilla.init (Vanilla.document "Analyze" false "")))) =
  [Vanilla.mkAnalysis 5 "good" Pending].
Proof.
  destruct (vanilla_click_calls_classifier plain "good"
    (Vanilla.exec plain [Vanilla.LoadSettles (Vanilla.Ok 5)]
       (Vanilla.init (Vanilla.document "Analyze" false "")))) as (H & _).
  - apply vanilla_reachable_exec. constructor.
  - reflexivity.
  - destruct H as (pipe & Hc & ->); [discriminate|].
    simpl in Hc. injection Hc as <-. reflexivity.
Defined.

(** X12. A failed load is final on the page: the button stays disabled
    and reads ['Failed to load model'], no classifier is stored, and no
    later event (a click, a settlement) changes anything at all. *)
Theorem vanilla_load_failure_is_final b tr r button0 disabled0 result0 :
  let pg := Vanilla.step b (Vanilla.LoadSettles (Vanilla.Failed r))
              (Vanilla.init (Vanilla.document button0 disabled0 result0)) in
  Vanilla.exec b tr pg = pg /\
  Vanilla.button_disabled pg = true /\
  Vanilla.button_text pg = "Failed to load model" /\
  Vanilla.classifier pg = None /\
  Vanilla.result_html pg = result0 /\
  Vanilla.console_log pg = [("Failed to load model:", Some r)].
Proof.
  intros pg. split; [|done].
  assert (forall e, Vanilla.step b e pg = pg) as Hfix.
  { intros [o|value|j o]; done. }
  induction tr as [|e tr IH]; simpl; [done|].
  by rewrite Hfix.
Qed.

(** X13. What the page shows when a pending call of the classifier
    settles: the result card of the first entry; the message of the
    rejection; the text [undefined] for a rejection without a message; the
    engine's message for an empty result array.  A rejection with [null] or
    [undefined] makes the [catch] block itself throw: nothing is shown and
    the promise of [analyze] is rejected.  The button and the classifier
    are untouched throughout. *)
Theorem vanilla_analyze_settlement b j a pg :
  Vanilla.analyses pg !! j = Some a ->
  Vanilla.an_promise a = Pending ->
  let after o := Vanilla.step b (Vanilla.AnalyzeSettles j o) pg in
  (forall label score rest,
     Vanilla.result_html (after (Vanilla.Ok ((label, score) :: rest))) =
       Vanilla.html_result b label score /\
     Vanilla.an_promise <$>
       Vanilla.analyses (after (Vanilla.Ok ((label, score) :: rest))) !! j =
       Some Fulfilled) /\
  (Vanilla.result_html (after (Vanilla.Ok [])) =
     Vanilla.html_error (Vanilla.cannot_destructure b) /\
   Vanilla.an_promise <$> Vanilla.analyses (after (Vanilla.Ok [])) !! j =
     Some Fulfilled) /\
  (forall m,
     Vanilla.result_html (after (Vanilla.Failed (Vanilla.WithMessage m))) =
       Vanilla.html_error m /\
     Vanilla.an_promise <$>
       Vanilla.analyses (after (Vanilla.Failed (Vanilla.WithMessage m))) !! j =
       Some Fulfilled) /\
  (Vanilla.result_html (after (Vanilla.Failed Vanilla.WithoutMessage)) =
     Vanilla.html_error "undefined") /\
  (Vanilla.result_html (after (Vanilla.Failed Vanilla.Nullish)) =
     Vanilla.result_html pg /\
   Vanilla.an_promise <$>
     Vanilla.analyses (after (Vanilla.Failed Vanilla.Nullish)) !! j =
     Some (RejectedWith (ErrorObj (Vanilla.cannot_read b)))) /\
  (forall o,
     Vanilla.button_disabled (after o) = Vanilla.button_disabled pg /\
     Vanilla.button_text (after o) = Vanilla.button_text pg /\
     Vanilla.classifier (after o) = Vanilla.classifier pg).
Proof.
  intros Hj Hp after. subst after. simpl. rewrite Hj, Hp. simpl.
  repeat split; intros; simpl;
    rewrite ?list_lookup_alter_eq, ?Hj; try done.
  all: rewrite (surjective_pairing (Vanilla.analyze_resume b o pg)); simpl.
  all: by destruct (vanilla_analyze_resume_frame b o pg) as (? & ? & ? & _).
Qed.

Lemma vanilla_analyze_settlement_witness :
  Vanilla.result_html
    (Vanilla.step plain
       (Vanilla.AnalyzeSettles 0 (Vanilla.Failed (Vanilla.WithMessage "oom")))
       (Vanilla.exec plain
          [Vanilla.LoadSettles (Vanilla.Ok 5); Vanilla.Click "good"]
          (Vanilla.init (Vanilla.document "Analyze" false "")))) =
  Vanilla.html_error "oom".
Proof.
  destruct (vanilla_analyze_settlement plain 0
    (Vanilla.mkAnalysis 5 "good" Pending)
    (Vanilla.exec plain
       [Vanilla.LoadSettles (Vanilla.Ok 5); Vanilla.Click "good"]
       (Vanilla.init (Vanilla.document "Analyze" false ""))))
    as (_ & _ & H & _); [reflexivity..|].
  exact (proj1 (H "oom")).
Defined.

(** X14. Once the classifier is stored the page stays that way: no later
    event replaces or clears it, and the button is never disabled again,
    not even while a call is in flight. *)
Theorem vanilla_loaded_is_stable b tr pipe pg :
  Vanilla.reachable b pg ->
  Vanilla.classifier pg = Some pipe ->
  Vanilla.classifier (Vanilla.exec b tr pg) = Some pipe /\
  Vanilla.button_disabled (Vanilla.exec b tr pg) = false /\
  Vanilla.button_text (Vanilla.exec b tr pg) = "Analyze Sentiment".
Proof.
  revert pg. induction tr as [|e tr IH]; intros pg Hpg Hc; simpl.
  - destruct (vanilla_reachable_button b pg Hpg) as (Hb & Ht & _).
    assert (Vanilla.button_disabled pg = false) as Hd
      by (apply Hb; rewrite Hc; by eexists).
    auto.
  - apply IH; [by constructor|].
    destruct (vanilla_reachable_button b pg Hpg) as (Hb & _ & Hp & _).
    destruct e as [o|value|j o]; simpl.
    + destruct (Vanilla.init_promise pg); try done.
      destruct (Hp eq_refl) as (Hd & _).
      assert (Vanilla.button_disabled pg = false) as Hd'
        by (apply Hb; rewrite Hc; by eexists).
      congruence.
    + destruct (Vanilla.button_disabled pg); [done|].
      unfold Vanilla.analyze. case_bool_decide; [done|]. by rewrite Hc.
    + destruct (Vanilla.analyses pg !! j) as [a|]; [|done].
      destruct (Vanilla.an_promise a); try done.
      rewrite (surjective_pairing (Vanilla.analyze_resume b o pg)). simpl.
      by destruct (vanilla_analyze_resume_frame b o pg) as (-> & _).
Qed.

Lemma vanilla_loaded_is_stable_witness :
  Vanilla.classifier
    (Vanilla.exec plain
       [Vanilla.Click "good"; Vanilla.LoadSettles (Vanilla.Failed Vanilla.Nullish);
        Vanilla.AnalyzeSettles 0 (Vanilla.Failed Vanilla.Nullish)]
       (Vanilla.exec plain [Vanilla.LoadSettles (Vanilla.Ok 5)]
          (Vanilla.init (Vanilla.document "Analyze" false "")))) = Some 5.
Proof.
  destruct (vanilla_loaded_is_stable plain
    [Vanilla.Click "good"; Vanilla.LoadSettles (Vanilla.Failed Vanilla.Nullish);
     Vanilla.AnalyzeSettles 0 (Vanilla.Failed Vanilla.Nullish)]
    5
    (Vanilla.exec plain [Vanilla.LoadSettles (Vanilla.Ok 5)]
       (Vanilla.init (Vanilla.document "Analyze" false "")))) as (H & _).
  - apply vanilla_reachable_exec. constructor.
  - reflexivity.
  - exact H.
Defined.

(** * What changes the handle and the output of the hook *)

(** X15. In a reachable state the stored handle changes only when the
    latest load resolves while the hook is mounted; the new handle is the
    one that load resolved to.  No render, unmount, [run], [reset],
    invocation or earlier load replaces or clears it. *)
Theorem handle_changes_only_on_latest_load e s :
  reachable s ->
  pipelineRef (step e s) <> pipelineRef s ->
  exists pipe d,
    e = LoadSettles (pred (length (effects s))) (Resolved pipe) /\
    pipelineRef (step e s) = Some pipe /\
    mount s = Mounted d.
Proof.
  intros Hs Hne.
  destruct e as [task options| |i p|input|j p|]; simpl in *.
  - by destruct (render_frame task options s) as (_ & _ & _ & H & _).
  - by destruct (unmount_frame s) as (_ & _ & _ & _ & H & _).
  - destruct (reachable_effects s Hs) as (Hfresh & Hsup & Hall).
    unfold load_settles in *.
    destruct (effects s !! i) as [c|] eqn:Hi; [|done].
    destruct (cl_promise c); try done.
    destruct (cancelled c) eqn:Hc; [by destruct p|].
    destruct p as [pipe|err]; [|done].
    assert (i = pred (length (effects s))) as ->.
    { apply lookup_lt_Some in Hi as Hlt.
      destruct (decide (S i < length (effects s))) as [Hlt'|]; [|lia].
      rewrite (Hsup i c Hi Hlt') in Hc. done. }
    destruct (mount s) as [|d|] eqn:Hm.
    + rewrite Hfresh in Hi by done. done.
    + by exists pipe, d.
    + rewrite (Hall eq_refl _ c Hi) in Hc. done.
  - by destruct (run_frame input s) as (_ & _ & H & _).
  - by destruct (invoke_settles_frame j p s) as (_ & H).
  - done.
Qed.

Lemma handle_changes_only_on_latest_load_witness :
  exists pipe d,
    LoadSettles 1 (Resolved 8) =
      LoadSettles (pred (length (effects
        (exec [taskA; LoadSettles 0 (Resolved 7); taskB] init))))
        (Resolved pipe) /\
    pipelineRef (step (LoadSettles 1 (Resolved 8))
      (exec [taskA; LoadSettles 0 (Resolved 7); taskB] init)) = Some pipe /\
    mount (exec [taskA; LoadSettles 0 (Resolved 7); taskB] init) = Mounted d.
Proof.
  apply (handle_changes_only_on_latest_load (LoadSettles 1 (Resolved 8))
           (exec [taskA; LoadSettles 0 (Resolved 7); taskB] init)).
  - apply reachable_exec, reach_init.
  - vm_compute. discriminate.
Defined.

(** X16. The output changes only when an invocation resolves or on
    [reset].  In particular a render with a new task, model or device keeps
    the output of the previous arguments on display, and neither a load nor
    a failing invocation touches it. *)
Theorem output_changes_only_on_result_or_reset e s :
  output (step e s) <> output s ->
  e = Reset \/
  exists j result,
    e = InvokeSettles j (Resolved result) /\
    output (step e s) = Some result.
Proof.
  intros Hne.
  destruct e as [task options| |i p|input|j p|]; simpl in *.
  - by destruct (render_frame task options s) as (_ & _ & H & _).
  - by destruct (unmount_frame s) as (_ & _ & _ & H & _).
  - by destruct (load_settles_frame i p s) as (_ & H & _).
  - by destruct (run_frame input s) as (_ & H & _).
  - right. unfold invoke_settles in *.
    destruct (calls s !! j) as [c|]; [|done].
    destruct (call_promise c); try done.
    destruct p as [result|err]; [|done].
    by exists j, result.
  - by left.
Qed.

Lemma output_changes_only_on_result_or_reset_witness :
  InvokeSettles 0 (Resolved "r") = Reset \/
  exists j result,
    InvokeSettles 0 (Resolved "r") = InvokeSettles j (Resolved result) /\
    output (step (InvokeSettles 0 (Resolved "r"))
      (exec [taskA; LoadSettles 0 (Resolved 7); Run "x"; taskB] init)) =
      Some result.
Proof.
  apply (output_changes_only_on_result_or_reset
           (InvokeSettles 0 (Resolved "r"))
           (exec [taskA; LoadSettles 0 (Resolved 7); Run "x"; taskB] init)).
  vm_compute. discriminate.
Defined.
